(** * iomeshage: the mesh file-transfer engine of minimega

    A shallow embedding of [iomeshage.go] (package [iomeshage]): the
    functions [New], [info], [Info], [Get], [Stream], [getParts],
    [destroyTempTransfer], [whoHas], [getPart], [xfer], [MITM] and
    [Status], over an explicit world that holds the node's configuration,
    the transfers map with the heap of [Transfer] records behind it, the
    file system, and the scripts that stand for the mesh and the random
    sources.

    Layout: path helpers of [path/filepath]; the file-system model of the
    [os] and [io/ioutil] calls the engine makes; the protocol message; the
    world and the monad of engine actions; the engine functions, in the
    order of the source; then the theorems. *)

From stdpp Require Import gmap strings list fin_maps pretty.
From Stdlib Require Import ZArith Lia.
From Stdlib.Strings Require Import Ascii Byte.

Open Scope Z_scope.
Open Scope string_scope.

(** ** Paths ([path/filepath], Unix flavour) *)

Module filepath.

Definition isSep (c : ascii) : bool := bool_decide (c = "/"%char).

(** The elements between separators, empty ones included. *)
Fixpoint split (s : string) : list string :=
  match s with
  | EmptyString => [""]
  | String c r =>
      if isSep c then "" :: split r
      else match split r with
           | h :: t => String c h :: t
           | [] => [String c ""]
           end
  end.

Fixpoint join (es : list string) : string :=
  match es with
  | [] => ""
  | [e] => e
  | e :: es' => e +:+ "/" +:+ join es'
  end.

(** The lexical processing of [Clean]: [stack] holds the elements kept so
    far, last one first. *)
Fixpoint cleanElems (rooted : bool) (stack es : list string) : list string :=
  match es with
  | [] => rev stack
  | e :: es' =>
      if bool_decide (e = "") || bool_decide (e = ".") then
        cleanElems rooted stack es'
      else if bool_decide (e = "..") then
        match stack with
        | top :: st' =>
            if bool_decide (top = "..") then cleanElems rooted (e :: stack) es'
            else cleanElems rooted st' es'
        | [] =>
            if rooted then cleanElems rooted [] es'
            else cleanElems rooted [e] es'
        end
      else cleanElems rooted (e :: stack) es'
  end.

Definition isRooted (s : string) : bool :=
  match s with
  | String c _ => isSep c
  | EmptyString => false
  end.

Definition Clean (path : string) : string :=
  let rooted := isRooted path in
  let body := join (cleanElems rooted [] (split path)) in
  let r := (if rooted then "/" else "") +:+ body in
  if bool_decide (r = "") then "." else r.

(** [Join] of two elements: empty elements are ignored, the rest is joined
    with a separator and cleaned. *)
Definition Join (a b : string) : string :=
  if bool_decide (a = "") then
    if bool_decide (b = "") then "" else Clean b
  else Clean (a +:+ "/" +:+ b).

(** Drops the separators at the front of a string. *)
Fixpoint dropSeps (s : string) : string :=
  match s with
  | String c r => if isSep c then dropSeps r else s
  | EmptyString => ""
  end.

(** The characters before the first separator. *)
Fixpoint untilSep (s : string) : string :=
  match s with
  | String c r => if isSep c then "" else String c (untilSep r)
  | EmptyString => ""
  end.

(** The string from its first separator on (empty when it has none). *)
Fixpoint fromSep (s : string) : string :=
  match s with
  | String c r => if isSep c then s else fromSep r
  | EmptyString => ""
  end.

(** [Base]: the last element of the path, trailing separators dropped. *)
Definition Base (path : string) : string :=
  if bool_decide (path = "") then "."
  else
    let r := dropSeps (String.rev path) in
    let last := String.rev (untilSep r) in
    if bool_decide (last = "") then "/" else last.

(** [Dir]: all but the last element, cleaned. *)
Definition Dir (path : string) : string :=
  Clean (String.rev (fromSep (String.rev path))).

End filepath.

(** ** The file system

    A path names either a regular file, with its bytes and permission bits,
    or a directory. Paths are looked up as written: the engine builds them
    from the cleaned base, so one file has one spelling. *)

Inductive Node :=
  | File (data : list byte) (perm : N)
  | Folder (perm : N).

#[global] Instance byte_eq_dec : EqDecision byte := Byte.byte_eq_dec.

#[global] Instance Node_eq_dec : EqDecision Node.
Proof. solve_decision. Defined.

Abbreviation FS := (gmap string Node).

Module os.

Definition isFolder (fs : FS) (p : string) : bool :=
  bool_decide (p = "/") || bool_decide (p = ".") ||
  match fs !! p with
  | Some (Folder _) => true
  | _ => false
  end.

(** [Stat]: the node at a path, if any. *)
Definition Stat (fs : FS) (p : string) : option Node := fs !! p.

Definition IsDir (n : Node) : bool :=
  match n with
  | Folder _ => true
  | File _ _ => false
  end.

(** The prefixes of a cleaned path that name its ancestors and itself:
    for [/a/b] these are [/a] and [/a/b]. *)
Fixpoint prefixes (pre : string) (es : list string) : list string :=
  match es with
  | [] => []
  | e :: es' =>
      let p := pre +:+ e in
      p :: prefixes (p +:+ "/") es'
  end.

Definition ancestors (p : string) : list string :=
  prefixes (if filepath.isRooted p then "/" else "")
           (filter (λ e, e ≠ "") (filepath.split p)).

Fixpoint mkdirs (ps : list string) (perm : N) (fs : FS) : option FS :=
  match ps with
  | [] => Some fs
  | p :: ps' =>
      if bool_decide (p = ".") then mkdirs ps' perm fs
      else match fs !! p with
           | Some (File _ _) => None
           | Some (Folder _) => mkdirs ps' perm fs
           | None => mkdirs ps' perm (<[p := Folder perm]> fs)
           end
  end.

(** [MkdirAll]: creates the directory and its missing ancestors; fails
    when one of them is a regular file. *)
Definition MkdirAll (p : string) (perm : N) (fs : FS) : option FS :=
  mkdirs (ancestors p) perm fs.

(** [ioutil.WriteFile] (create or truncate): the parent must be a
    directory and the path must not be one; an existing file keeps its
    permission bits. *)
Definition WriteFile (p : string) (data : list byte) (perm : N) (fs : FS)
  : option FS :=
  match fs !! p with
  | Some (Folder _) => None
  | Some (File _ pm) => Some (<[p := File data pm]> fs)
  | None =>
      if isFolder fs (filepath.Dir p) then Some (<[p := File data perm]> fs)
      else None
  end.

(** Creation with [O_EXCL], as [ioutil.TempFile] and [ioutil.TempDir] do
    for the name they settle on. *)
Definition createExcl (p : string) (n : Node) (fs : FS) : option FS :=
  match fs !! p with
  | Some _ => None
  | None => if isFolder fs (filepath.Dir p) then Some (<[p := n]> fs) else None
  end.

(** [io.Copy] into an open file: the bytes go after those already
    written. *)
Definition append (p : string) (data : list byte) (fs : FS) : FS :=
  match fs !! p with
  | Some (File d pm) => <[p := File (d ++ data) pm]> fs
  | _ => fs
  end.

(** [Rename] of a regular file: the target must not be a directory and
    its parent must be one. The engine renames regular files only; for a
    directory the model reports an error. *)
Definition Rename (old new : string) (fs : FS) : option FS :=
  match fs !! old with
  | Some (File d pm) =>
      match fs !! new with
      | Some (Folder _) => None
      | _ =>
          if isFolder fs (filepath.Dir new)
          then Some (<[new := File d pm]> (delete old fs))
          else None
      end
  | _ => None
  end.

(** The mode bits that [os.Chmod] passes to the system for an
    [os.FileMode]: the nine permission bits, and the setuid, setgid and
    sticky bits for [ModeSetuid] (bit 23), [ModeSetgid] (bit 22) and
    [ModeSticky] (bit 20); every other bit of the mode is dropped. *)
Definition syscallMode (m : N) : N :=
  N.lor (N.land m 511)
    (N.lor (if N.testbit m 23 then 2048 else 0)
       (N.lor (if N.testbit m 22 then 1024 else 0)
              (if N.testbit m 20 then 512 else 0)))%N.

Definition Chmod (p : string) (perm : N) (fs : FS) : option FS :=
  match fs !! p with
  | Some (File d _) => Some (<[p := File d (syscallMode perm)]> fs)
  | Some (Folder _) => Some (<[p := Folder (syscallMode perm)]> fs)
  | None => None
  end.

(** A path is inside [dir] when it is [dir] or continues it after a
    separator. *)
Definition inside (dir p : string) : bool :=
  bool_decide (p = dir) || String.prefix (dir +:+ "/") p.

(** [RemoveAll]: removes the path and everything below it; a missing path
    is no error. *)
Definition RemoveAll (dir : string) (fs : FS) : FS :=
  filter (λ kv, inside dir kv.1 = false) fs.

End os.

(** ** Protocol messages *)

Inductive MsgType := TYPE_INFO | TYPE_WHOHAS | TYPE_XFER | TYPE_RESPONSE.

#[global] Instance MsgType_eq_dec : EqDecision MsgType.
Proof. solve_decision. Defined.

(** Modelled from the spec: the declaration of [Message] is not among the
    sources. The fields are those of the data model: origin, kind, target
    filename, permission bits, glob list, part index or part count, transfer
    id, ACK flag, payload and content digest. [Part] is an [int64]; the
    engine only counts with it below the declared part count, so no
    arithmetic on it wraps. *)
Record Message := mkMessage {
  From : string;
  Type_ : MsgType;
  Filename : string;
  Perm : N;
  Glob : list string;
  Part : Z;
  TID : Z;
  ACK : bool;
  Data : list byte;
  Hash : string
}.

#[global] Instance Message_eq_dec : EqDecision Message.
Proof. solve_decision. Defined.

(** A request as the engine builds it: the fields it does not set have
    Go's zero values. *)
Definition request (from : string) (ty : MsgType) (file : string) (tid part : Z) : Message :=
  {| From := from; Type_ := ty; Filename := file; Perm := 0%N; Glob := [];
     Part := part; TID := tid; ACK := false; Data := []; Hash := "" |}.

(** ** Transfers and the world *)

Definition MAX_ATTEMPTS : nat := 3.
Definition QUEUE_LEN : nat := 3.

(** [timeout], in milliseconds. *)
Definition timeout : Z := 30000.

(** Addresses of heap objects: [*Transfer] values and [map[int64]bool]
    values are references in Go. *)
Abbreviation ptr := positive.

(** [Transfer] describes an in-flight transfer. [Parts] is the reference to
    the map of completed parts. *)
Record Transfer := mkTransfer {
  Dir : string;
  TFilename : string;
  Parts : ptr;
  NumParts : Z;
  Inflight : Z;
  Queued : bool
}.

#[global] Instance Transfer_eq_dec : EqDecision Transfer.
Proof. solve_decision. Defined.

(** The error values the engine returns. *)
Inductive error :=
  | ErrInFlight         (* "file already in flight" *)
  | ErrTimeout          (* "timeout" *)
  | ErrNACK             (* "received NACK from xfer node" *)
  | ErrNotFound         (* "get %v: file not found" *)
  | ErrGhost            (* "ghost transfer of %v:%v finished" *)
  | ErrTransport        (* an error of the mesh node *)
  | ErrIO.              (* an error of the operating system *)

#[global] Instance error_eq_dec : EqDecision error.
Proof. solve_decision. Defined.

(** What the node does that others can observe. *)
Inductive Event :=
  | EvBroadcast (m : Message)
  | EvSend (to : list string) (m : Message)
  | EvSleep (ms : Z).

#[global] Instance Event_eq_dec : EqDecision Event.
Proof. solve_decision. Defined.

(** The world of one iomeshage node. The first group is the [IOMeshage]
    object, with the heap its pointers refer to; then the file system and
    the trace; the last group is the script of what the surroundings do:
    the outcome of each send of the mesh node ([None] is a transport error,
    [Some rs] names the recipients), what each wait on a response channel
    yields ([None] is a timeout), the draws of the random source, the
    transfer ids, and the names the temporary-file calls settle on. *)
Record World := mkWorld {
  base : string;
  name : string;
  head : string;
  hash : bool;
  transfers : gmap string ptr;
  objs : gmap ptr Transfer;
  pmaps : gmap ptr (gmap Z bool);
  TIDs : gset Z;
  hashes : gmap string string;
  queue : nat;
  spawned : list Message;
  fs : FS;
  trace : list Event;
  sends : list (option (list string));
  inbox : list (option Message);
  rand : list Z;
  tids : list Z;
  names : list string
}.

#[global] Instance World_eq_dec : EqDecision World.
Proof. solve_decision. Defined.

(** How a call ends: it returns; it panics at a nil dereference, where the
    model ends the run (the goroutine then unwinds through its deferred
    calls, which the model does not follow: the process goes down, unless
    a deferred call waits for a lock that the panic left held); it waits
    for a slot that is not free or for a receiver that does not come; or
    the model runs out of fuel for the recursion of [Get]. *)
Inductive Res (A : Type) :=
  | Done (a : A) (w : World)
  | Panic
  | Blocked
  | OutOfFuel.
Arguments Done {A} a w.
Arguments Panic {A}.
Arguments Blocked {A}.
Arguments OutOfFuel {A}.

#[global] Instance Res_eq_dec {A} `{EqDecision A} : EqDecision (Res A).
Proof. solve_decision. Defined.

Definition M (A : Type) : Type := World → Res A.

#[global] Instance M_ret : MRet M := λ A a w, Done a w.
#[global] Instance M_bind : MBind M := λ A B f m w,
  match m w with
  | Done a w' => f a w'
  | Panic => Panic
  | Blocked => Blocked
  | OutOfFuel => OutOfFuel
  end.

Definition gets {A} (f : World → A) : M A := λ w, Done (f w) w.
Definition modify (f : World → World) : M unit := λ w, Done tt (f w).
Definition panic {A} : M A := λ _, Panic.


(** [defer d] around a body: [d] runs when the body returns. When the
    body panics the run has ended in the model (see [Res]): what [d] does
    while the goroutine unwinds is not followed. *)
Definition defer {A} (d : M unit) (body : M A) : M A :=
  a ← body; d;; mret a.

(** Field updates of the world. *)
Definition set_transfers (f : gmap string ptr → gmap string ptr) (w : World) : World :=
  mkWorld (base w) (name w) (head w) (hash w) (f (transfers w)) (objs w) (pmaps w)
    (TIDs w) (hashes w) (queue w) (spawned w) (fs w) (trace w) (sends w) (inbox w)
    (rand w) (tids w) (names w).
Definition set_objs (f : gmap ptr Transfer → gmap ptr Transfer) (w : World) : World :=
  mkWorld (base w) (name w) (head w) (hash w) (transfers w) (f (objs w)) (pmaps w)
    (TIDs w) (hashes w) (queue w) (spawned w) (fs w) (trace w) (sends w) (inbox w)
    (rand w) (tids w) (names w).
Definition set_pmaps (f : gmap ptr (gmap Z bool) → gmap ptr (gmap Z bool)) (w : World) : World :=
  mkWorld (base w) (name w) (head w) (hash w) (transfers w) (objs w) (f (pmaps w))
    (TIDs w) (hashes w) (queue w) (spawned w) (fs w) (trace w) (sends w) (inbox w)
    (rand w) (tids w) (names w).
Definition set_TIDs (f : gset Z → gset Z) (w : World) : World :=
  mkWorld (base w) (name w) (head w) (hash w) (transfers w) (objs w) (pmaps w)
    (f (TIDs w)) (hashes w) (queue w) (spawned w) (fs w) (trace w) (sends w) (inbox w)
    (rand w) (tids w) (names w).
Definition set_queue (f : nat → nat) (w : World) : World :=
  mkWorld (base w) (name w) (head w) (hash w) (transfers w) (objs w) (pmaps w)
    (TIDs w) (hashes w) (f (queue w)) (spawned w) (fs w) (trace w) (sends w) (inbox w)
    (rand w) (tids w) (names w).
Definition set_spawned (f : list Message → list Message) (w : World) : World :=
  mkWorld (base w) (name w) (head w) (hash w) (transfers w) (objs w) (pmaps w)
    (TIDs w) (hashes w) (queue w) (f (spawned w)) (fs w) (trace w) (sends w) (inbox w)
    (rand w) (tids w) (names w).
Definition set_fs (f : FS → FS) (w : World) : World :=
  mkWorld (base w) (name w) (head w) (hash w) (transfers w) (objs w) (pmaps w)
    (TIDs w) (hashes w) (queue w) (spawned w) (f (fs w)) (trace w) (sends w) (inbox w)
    (rand w) (tids w) (names w).
Definition set_trace (f : list Event → list Event) (w : World) : World :=
  mkWorld (base w) (name w) (head w) (hash w) (transfers w) (objs w) (pmaps w)
    (TIDs w) (hashes w) (queue w) (spawned w) (fs w) (f (trace w)) (sends w) (inbox w)
    (rand w) (tids w) (names w).
Definition set_sends (f : list (option (list string)) → list (option (list string)))
    (w : World) : World :=
  mkWorld (base w) (name w) (head w) (hash w) (transfers w) (objs w) (pmaps w)
    (TIDs w) (hashes w) (queue w) (spawned w) (fs w) (trace w) (f (sends w)) (inbox w)
    (rand w) (tids w) (names w).
Definition set_inbox (f : list (option Message) → list (option Message)) (w : World) : World :=
  mkWorld (base w) (name w) (head w) (hash w) (transfers w) (objs w) (pmaps w)
    (TIDs w) (hashes w) (queue w) (spawned w) (fs w) (trace w) (sends w) (f (inbox w))
    (rand w) (tids w) (names w).
Definition set_rand (f : list Z → list Z) (w : World) : World :=
  mkWorld (base w) (name w) (head w) (hash w) (transfers w) (objs w) (pmaps w)
    (TIDs w) (hashes w) (queue w) (spawned w) (fs w) (trace w) (sends w) (inbox w)
    (f (rand w)) (tids w) (names w).
Definition set_tids (f : list Z → list Z) (w : World) : World :=
  mkWorld (base w) (name w) (head w) (hash w) (transfers w) (objs w) (pmaps w)
    (TIDs w) (hashes w) (queue w) (spawned w) (fs w) (trace w) (sends w) (inbox w)
    (rand w) (f (tids w)) (names w).
Definition set_names (f : list string → list string) (w : World) : World :=
  mkWorld (base w) (name w) (head w) (hash w) (transfers w) (objs w) (pmaps w)
    (TIDs w) (hashes w) (queue w) (spawned w) (fs w) (trace w) (sends w) (inbox w)
    (rand w) (tids w) (f (names w)).

(** ** Primitive actions *)

Definition emit (e : Event) : M unit := modify (set_trace (λ t, (t ++ [e])%list)).

(** [time.Sleep]. *)
Definition Sleep (ms : Z) : M unit := emit (EvSleep ms).

(** [iom.node.Broadcast]: the message goes out; the script says whether the
    mesh accepted it and who the recipients are. A script that has run out
    accepts the message for no recipient. *)
Definition Broadcast (m : Message) : M (option (list string)) :=
  emit (EvBroadcast m);;
  r ← gets (λ w, hd (Some []) (sends w));
  modify (set_sends (drop 1));;
  mret r.

(** [iom.node.Set]: a directed send; [false] is a transport error. *)
Definition NodeSet (to : list string) (m : Message) : M bool :=
  emit (EvSend to m);;
  r ← gets (λ w, hd (Some []) (sends w));
  modify (set_sends (drop 1));;
  mret (bool_decide (is_Some r)).

(** One [select] between the response channel and [time.After(timeout)]:
    [Some resp] when a response arrives first, [None] for the timeout. A
    script that has run out stands for silence. *)
Definition recv : M (option Message) :=
  r ← gets (λ w, hd None (inbox w));
  modify (set_inbox (drop 1));;
  mret r.

(** [iom.rand.Int63n n], for the positive [n] the engine calls it with. *)
Definition Int63n (n : Z) : M Z :=
  r ← gets (λ w, hd 0 (rand w));
  modify (set_rand (drop 1));;
  mret (r `mod` n).

(** Modelled from the spec: [newTID] and [unregisterTID] are not among the
    sources. Allocation draws an identifier and registers its response
    channel; release removes the mapping and is idempotent. *)
Definition newTID : M Z :=
  t ← gets (λ w, hd 0 (tids w));
  modify (set_tids (drop 1));;
  modify (set_TIDs (λ s, {[t]} ∪ s));;
  mret t.

Definition unregisterTID (t : Z) : M unit :=
  modify (set_TIDs (λ s, s ∖ {[t]})).

(** File-system calls inside the monad; [false] stands for a non-nil
    error. *)
Definition fsTry (op : FS → option FS) : M bool :=
  r ← gets (λ w, op (fs w));
  match r with
  | Some fs' => modify (set_fs (λ _, fs'));; mret true
  | None => mret false
  end.

(** [ioutil.TempFile dir prefix] and [ioutil.TempDir dir prefix]: the
    script gives the random part of the name the call settles on; the
    result is the path, or [None] for an error. Files are created with mode
    0600, directories with 0700. *)
Definition TempNode (dir pre : string) (n : Node) : M (option string) :=
  suffix ← gets (λ w, hd "" (names w));
  modify (set_names (drop 1));;
  let p := filepath.Join dir (pre +:+ suffix) in
  ok ← fsTry (os.createExcl p n);
  mret (if ok : bool then Some p else None).

Definition TempFile (dir pre : string) : M (option string) :=
  TempNode dir pre (File [] 384%N).

Definition TempDir (dir pre : string) : M (option string) :=
  TempNode dir pre (Folder 448%N).

(** ** The transfers map and the heap *)

(** [t, ok := iom.transfers[f]]. *)
Definition lookupTransfer (f : string) : M (option ptr) :=
  gets (λ w, transfers w !! f).

(** Reading through a [*Transfer]: a nil pointer panics. *)
Definition deref (p : option ptr) : M Transfer :=
  match p with
  | None => panic
  | Some a =>
      o ← gets (λ w, objs w !! a);
      match o with
      | Some t => mret t
      | None => panic
      end
  end.

(** [t.Parts[p]]: a key that is not in the map reads as [false], and so
    does every key of a nil map. *)
Definition partsGet (t : Transfer) (p : Z) : M bool :=
  gets (λ w, default false (pmaps w !! Parts t ≫= (.!! p))).

(** [t.Parts[p] = v]: an assignment into a nil map panics. *)
Definition partsSet (t : Transfer) (p : Z) (v : bool) : M unit :=
  o ← gets (λ w, pmaps w !! Parts t);
  match o with
  | Some m => modify (set_pmaps <[Parts t := <[p := v]> m]>)
  | None => panic
  end.

(** Assignments to the fields of the record behind [iom.transfers[f]]. *)
Definition setField (f : string) (upd : Transfer → Transfer) : M unit :=
  o ← lookupTransfer f;
  t ← deref o;
  match o with
  | Some a => modify (set_objs <[a := upd t]>)
  | None => panic
  end.

Definition withInflight (p : Z) (t : Transfer) : Transfer :=
  mkTransfer (Dir t) (TFilename t) (Parts t) (NumParts t) p (Queued t).

Definition withQueued (q : bool) (t : Transfer) : Transfer :=
  mkTransfer (Dir t) (TFilename t) (Parts t) (NumParts t) (Inflight t) q.

Definition withParts (a : ptr) (t : Transfer) : Transfer :=
  mkTransfer (Dir t) (TFilename t) a (NumParts t) (Inflight t) (Queued t).

(** [new(Transfer)] and [make(map[int64]bool)]: a fresh address. *)
Definition newTransfer (t : Transfer) : M ptr :=
  a ← gets (λ w, fresh (dom (objs w)));
  modify (set_objs <[a := t]>);;
  mret a.

Definition makeMap : M ptr :=
  a ← gets (λ w, fresh (dom (pmaps w)));
  modify (set_pmaps <[a := ∅]>);;
  mret a.

(** The admission queue, a channel of capacity [QUEUE_LEN]: a send waits
    while the channel is full, a receive while it is empty. *)
Definition acquire : M unit := λ w,
  if decide (queue w < QUEUE_LEN)%nat then Done tt (set_queue S w) else Blocked.

Definition release : M unit := λ w,
  if decide (0 < queue w)%nat then Done tt (set_queue pred w) else Blocked.

(** The name of a part file: [fmt.Sprintf("%v/%v.part_%v", dir, base, p)]. *)
Definition partFile (dir file : string) (p : Z) : string :=
  dir +:+ "/" +:+ filepath.Base file +:+ ".part_" +:+ pretty p.

(** ** The engine *)

(** A [for ... range] loop whose body cannot leave it. *)
Fixpoint forEach {A} (l : list A) (body : A → M unit) : M unit :=
  match l with
  | [] => mret tt
  | x :: l' => body x;; forEach l' body
  end.

(** The Fisher-Yates shuffle both [Get] and [getParts] write out: for
    [i] from the last index down to 1, draw [j] below [i + 1] and swap the
    elements at [j] and [i]. The argument [i] is the current index. *)
Fixpoint shuffle {A} `{Inhabited A} (i : nat) (l : list A) : M (list A) :=
  match i with
  | O => mret l
  | S i' =>
      j ← Int63n (Z.of_nat i + 1);
      let jn := Z.to_nat j in
      let t := l !!! jn in
      shuffle i' (<[i := t]> (<[jn := l !!! i]> l))
  end.

(** [xfer] returns a part of the file, requested from the node that
    answered the INFO request. *)
Definition xfer (msg : Message) (part : Z) : M (error + list byte) :=
  tid ← newTID;
  defer (unregisterTID tid) (
    from ← gets name;
    let m := request from TYPE_XFER (Filename msg) tid part in
    ok ← NodeSet [From msg] m;
    if ok : bool then
      r ← recv;
      match r with
      | Some resp =>
          if ACK resp then mret (inr (Data resp)) else mret (inl ErrNACK)
      | None => mret (inl ErrTimeout)
      end
    else mret (inl ErrTransport)).

Definition getPart (msg : Message) (p : Z) : M (option error) :=
  (* did I already get this part via another node's request? *)
  o ← lookupTransfer (Filename msg);
  t ← deref o;
  got ← partsGet t p;
  if got : bool then mret None
  else
    setField (Filename msg) (withInflight p);;
    (* transfer the part from a specific node *)
    r ← xfer msg p;
    match r with
    | inl e => mret (Some e)
    | inr data =>
        o ← lookupTransfer (Filename msg);
        match o with
        | None => mret (Some ErrGhost)
        | Some a =>
            t ← deref (Some a);
            let outfile := partFile (Dir t) (Filename msg) p in
            ok ← fsTry (os.WriteFile outfile data 436%N);   (* 0664 *)
            if ok : bool then partsSet t p true;; mret None
            else mret (Some ErrIO)
        end
    end.

(** The inner loop of [getParts]: up to [n] more attempts at part [p], the
    next one numbered [attempt]. [true] is [continue Outer]; [false] means
    the loop ran out of attempts. *)
Fixpoint attempts (n : nat) (attempt : Z) (msg : Message) (p : Z) : M bool :=
  match n with
  | O => mret false
  | S n' =>
      e ← getPart msg p;
      match e with
      | Some _ =>
          (if decide (0 < attempt) then Sleep timeout else mret tt);;
          attempts n' (attempt + 1) msg p
      | None => mret true
      end
  end.

(** The loop labelled [Outer]: [true] when it ends, [false] when the
    function returns from inside it. *)
Fixpoint fetchAll (msg : Message) (parts : list Z) : M bool :=
  match parts with
  | [] => mret true
  | p :: rest =>
      ok ← attempts MAX_ATTEMPTS 0 msg p;
      if ok : bool then fetchAll msg rest
      else
        o ← lookupTransfer (Filename msg);
        t ← deref o;
        got ← partsGet t p;
        if got : bool then fetchAll msg rest else mret false
  end.

(** The loop that copies the parts into the assembly file, for the [n]
    parts from [i] on. [tfile] is [None] when [ioutil.TempFile] failed: the
    copy into a nil file fails and the error is dropped. A part that is a
    directory opens and copies nothing. [false] when a part does not open
    and the function returns. *)
Fixpoint copyParts (msg : Message) (t : Transfer) (tfile : option string)
    (n : nat) (i : Z) : M bool :=
  match n with
  | O => mret true
  | S n' =>
      let fname := partFile (Dir t) (Filename msg) i in
      st ← gets (λ w, fs w !! fname);
      match st with
      | None => mret false
      | Some nd =>
          match tfile, nd with
          | Some tname, File d _ => modify (set_fs (os.append tname d))
          | _, _ => mret tt
          end;;
          copyParts msg t tfile n' (i + 1)
      end
  end.

(** The tail of [getParts], after all parts are in: copy the parts into the
    whole file, create the subdirectories, move the file into place, set
    its permissions. *)
Definition assemble (msg : Message) : M unit :=
  o ← lookupTransfer (Filename msg);
  t ← deref o;
  tfile ← TempFile (Dir t) "cat_";
  ok ← copyParts msg t tfile (Z.to_nat (Part msg)) 0;
  if ok : bool then
    match tfile with
    | None => panic                      (* [tfile.Name()] of a nil file *)
    | Some tname =>
        b ← gets base;
        let fullPath := filepath.Join b (Filename msg) in
        ok ← fsTry (os.MkdirAll (filepath.Dir fullPath) 493%N);   (* 0755 *)
        if ok : bool then
          Sleep 500;;
          fsTry (os.Rename tname fullPath);;
          fsTry (os.Chmod fullPath (Perm msg));;
          mret tt
        else mret tt
    end
  else mret tt.

(** Modelled from the spec: [touch] is not among the sources. It creates an
    empty file with the declared permissions at the path, below
    directories it creates as needed; it fails when the path is a
    directory or an ancestor is a regular file. *)
Definition touch (fname : string) (perm : N) (fs : FS) : option FS :=
  fs1 ← os.MkdirAll (filepath.Dir fname) 493%N fs;
  match fs1 !! fname with
  | Some (Folder _) => None
  | _ => Some (<[fname := File [] perm]> fs1)
  end.

(** Remove a temporary transfer directory and any transferred parts. *)
Definition destroyTempTransfer (filename : string) : M unit :=
  o ← lookupTransfer filename;
  match o with
  | None => mret tt                      (* "could not access transfer object!" *)
  | Some a =>
      t ← deref (Some a);
      modify (set_fs (os.RemoveAll (Dir t)));;
      modify (set_transfers (delete filename))
  end.

(** Get a file with [msg.Part] parts, in a random order of the parts. *)
Definition getParts (msg : Message) : M unit :=
  defer (destroyTempTransfer (Filename msg)) (
    if decide (Part msg = 0) then
      (* corner case - empty file *)
      b ← gets base;
      fsTry (touch (filepath.Join b (Filename msg)) (Perm msg));;
      mret tt
    else
      (* create a random list of parts to grab *)
      parts ← shuffle (Z.to_nat (Part msg - 1))
                      (Z.of_nat <$> seq 0 (Z.to_nat (Part msg)));
      (* get in line *)
      acquire;;
      defer release (
        setField (Filename msg) (withQueued false);;
        ok ← fetchAll msg parts;
        if ok : bool then assemble msg else mret tt)).

(** [MITM] checks a message that is routed through this node, in case it
    is a file part this node is also looking for; if so, it writes it out. *)
Definition MITM (m : Message) : M unit :=
  if negb (bool_decide (Type_ m = TYPE_RESPONSE)) || negb (ACK m)
     || bool_decide (length (Data m) = 0%nat) then mret tt
  else
    o ← lookupTransfer (Filename m);
    match o with
    | Some a =>
        f ← deref (Some a);
        if decide (Inflight f = Part m) then mret tt
        else
          got ← partsGet f (Part m);
          if got : bool then mret tt
          else
            let outfile := partFile (Dir f) (TFilename f) (Part m) in
            ok ← fsTry (os.WriteFile outfile (Data m) 436%N);   (* 0664 *)
            if ok : bool then partsSet f (Part m) true else mret tt
    | None => mret tt
    end.

(** [Status] returns a deep copy of the in-flight file transfers. The
    order in which Go ranges over a map is not specified; the model takes
    the order of [map_to_list]. *)
Definition copyTransfer (a : ptr) : M ptr :=
  t ← deref (Some a);
  t2 ← newTransfer t;                                 (* [*t2 = *t] *)
  mp ← makeMap;
  modify (set_objs <[t2 := withParts mp t]>);;        (* [t2.Parts = make(...)] *)
  src ← gets (λ w, default ∅ (pmaps w !! Parts t));
  forEach (map_to_list src) (λ kv, partsSet (withParts mp t) kv.1 kv.2);;
  mret t2.

Fixpoint copyAll (ts : list (string * ptr)) (res : list ptr) : M (list ptr) :=
  match ts with
  | [] => mret res
  | (_, a) :: ts' =>
      t2 ← copyTransfer a;
      copyAll ts' (res ++ [t2])%list
  end.

Definition Status : M (list ptr) :=
  ts ← gets (λ w, map_to_list (transfers w));
  copyAll ts [].

(** ** INFO collection and [Get]

    [Files], the collector of INFO responses with its functions [NewFiles],
    [add], [messages] and [use], is declared outside the sources; the engine
    is stated over any implementation of it. [use file hash exists] returns
    the message to fetch from ([None] when the local copy has the right
    hash) and whether the file could be decided at all. *)
Record FilesOps := mkFilesOps {
  Files : Type;
  NewFiles : string → bool → Files;
  add : Files → Message → Files;
  messages : Files → list Message;
  use : Files → string → string → bool → option Message * bool
}.

(** Modelled from the spec: [getHash] is not among the sources. The hash
    index maps a relative path to its content digest; a path without an
    entry has the empty digest. *)
Definition getHash (file : string) : M string :=
  gets (λ w, default "" (hashes w !! file)).

Section Collector.
Context (F : FilesOps).

(** The ACKs among the responses, aggregated in the order of arrival. *)
Definition aggregate (acc : Files F) (resps : list Message) : Files F :=
  foldl (λ a r, if ACK r then add F a r else a) acc resps.

(** The loop of [info] that waits for [n] responses, or a timeout. *)
Fixpoint collect (n : nat) (acc : Files F) : M (error + Files F) :=
  match n with
  | O => mret (inr acc)
  | S n' =>
      r ← recv;
      match r with
      | Some resp => collect n' (if ACK resp then add F acc resp else acc)
      | None => mret (inl ErrTimeout)
      end
  end.

Definition info (file : string) : M (error + Files F) :=
  tid ← newTID;
  defer (unregisterTID tid) (
    from ← gets name;
    let m := request from TYPE_INFO file tid 0 in
    r ← Broadcast m;
    match r with
    | None => mret (inl ErrTransport)
    | Some recipients =>
        h ← gets head;
        hs ← gets hash;
        collect (length recipients) (NewFiles F h hs)
    end).

(** The part of [Get] that starts the transfer of one file from the
    message [u] that [use] chose. [None] when the temporary directory
    cannot be made. *)
Definition startTransfer (u : Message) : M (option error) :=
  b ← gets base;
  tdir ← TempDir b "transfer_";
  match tdir with
  | None => mret (Some ErrIO)
  | Some d =>
      mp ← makeMap;
      a ← newTransfer (mkTransfer d (Filename u) mp (Part u) (-1) true);
      modify (set_transfers <[Filename u := a]>);;
      modify (set_spawned (λ l, (l ++ [u])%list));;     (* [go iom.getParts(use)] *)
      mret None
  end.

(** [Get] retrieves a file from the mesh. The recursion on the entries of
    a glob has no bound in the source; [fuel] bounds its depth here. *)
Fixpoint Get (fuel : nat) (file : string) : M (option error) :=
  match fuel with
  | O => λ _, OutOfFuel
  | S fuel' =>
      b ← gets base;
      h ← gets head;
      st ← gets (λ w, os.Stat (fs w) (filepath.Join b file));
      let isFile := match st with Some nd => negb (os.IsDir nd) | None => false end in
      if isFile && bool_decide (h = "") then mret None
      else
        let exists_ := isFile in
        (* is this file already in flight? *)
        o ← lookupTransfer file;
        match o with
        | Some _ => mret (Some ErrInFlight)
        | None =>
            r ← info file;
            match r with
            | inl e => mret (Some e)
            | inr inf =>
                if bool_decide (length (messages F inf) = 0%nat)
                then mret (Some ErrNotFound)
                else
                  (fix each (vs : list Message) (inflight : gset string)
                     : M (option error) :=
                     match vs with
                     | [] => mret None
                     | v :: vs' =>
                         if bool_decide (length (Glob v) = 0%nat) then
                           if decide (Filename v ∈ inflight) then each vs' inflight
                           else
                             hsh ← getHash (Filename v);
                             match use F inf (Filename v) hsh exists_ with
                             | (_, false) => each vs' inflight
                             | (None, true) => each vs' inflight
                             | (Some u, true) =>
                                 e ← startTransfer u;
                                 match e with
                                 | Some err => mret (Some err)
                                 | None => each vs' ({[Filename u]} ∪ inflight)
                                 end
                             end
                         else
                           g ← shuffle (length (Glob v) - 1)%nat (Glob v);
                           e ← (fix globs (xs : list string) : M (option error) :=
                                  match xs with
                                  | [] => mret None
                                  | x :: xs' =>
                                      if decide (x ∈ inflight) then globs xs'
                                      else
                                        e ← Get fuel' x;
                                        match e with
                                        | Some err =>
                                            if decide (err = ErrInFlight) then globs xs'
                                            else mret (Some err)
                                        | None => globs xs'
                                        end
                                  end) g;
                           match e with
                           | Some err => mret (Some err)
                           | None => each vs' inflight
                           end
                     end) (messages F inf) ∅
            end
        end
  end.

End Collector.

(** ** Views of the world *)

(** The record registered for a filename. *)
Definition transferOf (w : World) (f : string) : option Transfer :=
  transfers w !! f ≫= (objs w !!.).

(** Whether part [p] is in the completed-parts set of [t]. *)
Definition completed (w : World) (t : Transfer) (p : Z) : bool :=
  default false (pmaps w !! Parts t ≫= (.!! p)).

(** The name resolves to a local regular file under the base path. *)
Definition localFile (w : World) (file : string) : bool :=
  match os.Stat (fs w) (filepath.Join (base w) file) with
  | Some nd => negb (os.IsDir nd)
  | None => false
  end.

(** What the engine sees of the Transfer registered for [f]: the record
    and the contents of its map of completed parts. *)
Definition snapshot (w : World) (f : string) : option (Transfer * gmap Z bool) :=
  a ← transfers w !! f;
  t ← objs w !! a;
  Some (t, default ∅ (pmaps w !! Parts t)).

(** The XFER requests for part [p] of [file] in a trace. *)
Definition isXfer (file : string) (p : Z) (e : Event) : bool :=
  match e with
  | EvSend _ m =>
      bool_decide (Type_ m = TYPE_XFER) && bool_decide (Filename m = file)
      && bool_decide (Part m = p)
  | _ => false
  end.

Definition xferCount (file : string) (p : Z) (tr : list Event) : nat :=
  length (filter (λ e, isXfer file p e = true) tr).

(** The XFER request [xfer] sends for a part. *)
Definition xferRequest (msg : Message) (w : World) (part : Z) : Event :=
  EvSend [From msg] (request (name w) TYPE_XFER (Filename msg) (hd 0 (tids w)) part).

(** What [xfer] returns, read off the script: a transport error when the
    send fails, else the payload of an ACK, or the NACK or timeout error. *)
Definition xferResult (w : World) : error + list byte :=
  match hd (Some []) (sends w) with
  | Some _ =>
      match hd None (inbox w) with
      | Some resp => if ACK resp then inr (Data resp) else inl ErrNACK
      | None => inl ErrTimeout
      end
  | None => inl ErrTransport
  end.

(** ** What the part fetcher guarantees

    The predicates the lemmas on [getPart], on the loops of [getParts] and
    on its fetch phase are stated with. *)

(** A call returns, in a result and a world that satisfy [Q]. *)
Definition returns {A} (r : Res A) (Q : A → World → Prop) : Prop :=
  match r with
  | Done a w => Q a w
  | _ => False
  end.

(** The parts of the world that sends, waits and sleeps leave alone. *)
Definition sameStore (w w' : World) : Prop :=
  base w' = base w ∧ name w' = name w ∧ transfers w' = transfers w
  ∧ objs w' = objs w ∧ pmaps w' = pmaps w ∧ fs w' = fs w ∧ queue w' = queue w.

(** A Transfer is live for [f]: it is registered at address [a], its
    record is allocated with the scratch directory and the completed-parts
    map of [t], and that map is allocated. *)
Definition Live (f : string) (a : ptr) (t : Transfer) (w : World) : Prop :=
  transfers w !! f = Some a
  ∧ (∃ t', objs w !! a = Some t' ∧ Dir t' = Dir t ∧ Parts t' = Parts t)
  ∧ is_Some (pmaps w !! Parts t).

(** What a step of the fetcher keeps: the Transfer stays live, the
    configuration, the transfers map and the queue are as before, the disk
    changes inside the scratch directory only, and completed parts stay
    completed. *)
Definition Keeps (f : string) (a : ptr) (t : Transfer) (w w' : World) : Prop :=
  Live f a t w'
  ∧ base w' = base w ∧ name w' = name w ∧ queue w' = queue w
  ∧ transfers w' = transfers w
  ∧ os.RemoveAll (Dir t) (fs w') = os.RemoveAll (Dir t) (fs w)
  ∧ (∀ q, completed w t q = true → completed w' t q = true).

(** What [getPart] guarantees when it returns [e] in [w']. It sends at most
    one XFER, for its own part, and exactly one when it reports an error;
    when it returns nil the part is completed; unless the part was
    completed already, the in-flight field of the record is left at [p];
    and a part it fetched is on disk, under its part name in the scratch
    directory, with the bytes of the response. *)
Definition getPartPost (msg : Message) (p : Z) (a : ptr) (t : Transfer) (w : World)
    (e : option error) (w' : World) : Prop :=
  Keeps (Filename msg) a t w w'
  ∧ (e = None → completed w' t p = true)
  ∧ (is_Some e → completed w' t p = completed w t p)
  ∧ (∀ q, q ≠ p → xferCount (Filename msg) q (trace w')
                   = xferCount (Filename msg) q (trace w))
  ∧ (xferCount (Filename msg) p (trace w')
       ≤ xferCount (Filename msg) p (trace w) + 1)%nat
  ∧ (is_Some e → xferCount (Filename msg) p (trace w')
                 = xferCount (Filename msg) p (trace w) + 1)%nat
  ∧ (completed w t p = false →
     ∃ t', objs w' !! a = Some t' ∧ Inflight t' = p)
  ∧ (e = None → completed w t p = false →
     ∃ data pm, xferResult w = inr data
       ∧ fs w' !! partFile (Dir t) (Filename msg) p = Some (File data pm)).

Definition attemptsPost (msg : Message) (p : Z) (a : ptr) (t : Transfer) (n : nat)
    (w : World) (ok : bool) (w' : World) : Prop :=
  Keeps (Filename msg) a t w w'
  ∧ (ok = true → completed w' t p = true)
  ∧ (ok = false → completed w' t p = completed w t p
       ∧ xferCount (Filename msg) p (trace w')
         = (xferCount (Filename msg) p (trace w) + n)%nat)
  ∧ (∀ q, q ≠ p → xferCount (Filename msg) q (trace w')
                   = xferCount (Filename msg) q (trace w))
  ∧ (xferCount (Filename msg) p (trace w')
       ≤ xferCount (Filename msg) p (trace w) + n)%nat.

Definition fetchAllPost (msg : Message) (parts : list Z) (a : ptr) (t : Transfer)
    (w : World) (ok : bool) (w' : World) : Prop :=
  Keeps (Filename msg) a t w w'
  ∧ (ok = true → ∀ p, p ∈ parts → completed w' t p = true)
  ∧ (ok = false → ∃ p, p ∈ parts ∧ completed w' t p = false
       ∧ xferCount (Filename msg) p (trace w')
         = (xferCount (Filename msg) p (trace w) + MAX_ATTEMPTS)%nat)
  ∧ (∀ q, (xferCount (Filename msg) q (trace w')
            ≤ xferCount (Filename msg) q (trace w) + MAX_ATTEMPTS)%nat)
  ∧ (∀ q, q ∉ parts → xferCount (Filename msg) q (trace w')
                      = xferCount (Filename msg) q (trace w)).

(** [getParts] for a file with parts, up to the end of the loop over the
    parts: the shuffle, the admission slot, the queued flag and the loop.
    The result is that of [fetchAll]. *)
Definition fetchPhase (msg : Message) : M bool :=
  parts ← shuffle (Z.to_nat (Part msg - 1))
                  (Z.of_nat <$> seq 0 (Z.to_nat (Part msg)));
  acquire;;
  setField (Filename msg) (withQueued false);;
  fetchAll msg parts.

Definition fetchPhasePost (msg : Message) (a : ptr) (t : Transfer) (w : World)
    (ok : bool) (w1 : World) : Prop :=
  Live (Filename msg) a t w1
  ∧ base w1 = base w ∧ transfers w1 = transfers w ∧ queue w1 = S (queue w)
  ∧ os.RemoveAll (Dir t) (fs w1) = os.RemoveAll (Dir t) (fs w)
  ∧ (∀ q, completed w t q = true → completed w1 t q = true)
  ∧ (ok = true → ∀ p, 0 ≤ p < Part msg → completed w1 t p = true)
  ∧ (ok = false → ∃ p, 0 ≤ p < Part msg ∧ completed w1 t p = false
       ∧ xferCount (Filename msg) p (trace w1)
         = (xferCount (Filename msg) p (trace w) + MAX_ATTEMPTS)%nat)
  ∧ (∀ q, (xferCount (Filename msg) q (trace w1)
            ≤ xferCount (Filename msg) q (trace w) + MAX_ATTEMPTS)%nat).

(** ** What [Status] guarantees *)

(** Every registered Transfer has its record and its map allocated, as
    [Get] makes them. *)
Definition allocated (w : World) : Prop :=
  ∀ f a, transfers w !! f = Some a →
    ∃ t, objs w !! a = Some t ∧ is_Some (pmaps w !! Parts t).

(** A caller's writes through a record that [Status] returned: any new
    value [t'] for the record at [r], and any new contents [m'] for the
    map the record referred to. *)
Definition mutate (r : ptr) (t' : Transfer) (mp : ptr) (m' : gmap Z bool)
    (w : World) : World :=
  set_pmaps <[mp := m']> (set_objs <[r := t']> w).

(** The later world has all the heap objects of the earlier one, and is
    the same outside the heap. *)
Definition extends (w w' : World) : Prop :=
  transfers w' = transfers w
  ∧ (∀ a t, objs w !! a = Some t → objs w' !! a = Some t)
  ∧ (∀ a m, pmaps w !! a = Some m → pmaps w' !! a = Some m)
  ∧ fs w' = fs w ∧ trace w' = trace w ∧ queue w' = queue w.

(** [r] is a copy of the record at [a], made after [w]: a new record with
    the fields of the old one and a new map with the same contents. *)
Definition copyOf (w w' : World) (a r : ptr) : Prop :=
  (r ∉ dom (objs w))
  ∧ ∃ t t2, objs w !! a = Some t ∧ objs w' !! r = Some t2
      ∧ t2 = withParts (Parts t2) t
      ∧ (Parts t2 ∉ dom (pmaps w))
      ∧ pmaps w' !! Parts t2 = Some (default ∅ (pmaps w !! Parts t)).

Definition insertAll (m0 : gmap Z bool) (l : list (Z * bool)) : gmap Z bool :=
  foldl (λ m kv, <[kv.1 := kv.2]> m) m0 l.

(** ** A node to run the engine on

    Node [B] serves [/srv] and is fetching [hello.txt], three parts, from
    node [A]; nothing has arrived yet. The worlds after the module are
    variations of this one. *)

Module Scenario.

Definition f : string := "hello.txt".

Definition t0 : Transfer := mkTransfer "/srv/transfer_1" f 1%positive 3 (-1) true.

Definition disk : FS :=
  <["/srv" := Folder 493%N]> (<["/srv/transfer_1" := Folder 448%N]> ∅).

Definition w0 : World :=
  {| base := "/srv"; name := "B"; head := ""; hash := false;
     transfers := {[f := 1%positive]};
     objs := {[1%positive := t0]};
     pmaps := {[1%positive := ∅]};
     TIDs := ∅; hashes := ∅; queue := 0; spawned := [];
     fs := disk; trace := [];
     sends := []; inbox := []; rand := []; tids := []; names := [] |}.

(** The INFO answer of node [A], which the fetcher works from. *)
Definition ack : Message :=
  {| From := "A"; Type_ := TYPE_RESPONSE; Filename := f; Perm := 420%N;   (* 0644 *)
     Glob := []; Part := 3; TID := 7; ACK := true; Data := []; Hash := "" |}.

(** A forwarded answer to an XFER of part [p]. *)
Definition part (p : Z) (ok : bool) (d : list byte) : Message :=
  {| From := "A"; Type_ := TYPE_RESPONSE; Filename := f; Perm := 420%N;
     Glob := []; Part := p; TID := 9; ACK := ok; Data := d; Hash := "" |}.

Definition abcd : list byte := [x61; x62; x63; x64]%byte.
Definition efgh : list byte := [x65; x66; x67; x68]%byte.
Definition ij : list byte := [x69; x6a]%byte.

End Scenario.

(** Modelled from the spec: an implementation of the collector that is not
    among the sources, to run [Get] and [info] on. It keeps the ACKs in the
    order of arrival. [use] answers that the local copy is authoritative
    when some ACK carries the local digest and the file exists; otherwise
    it picks, among the ACKs for exactly this filename that are no globs,
    the first (route distances are not modelled); an ACK set with none is
    a glob and not decided. *)
Definition listFiles : FilesOps :=
  {| Files := list Message;
     NewFiles := λ _ _, [];
     add := λ l m, (l ++ [m])%list;
     messages := λ l, l;
     use := λ l file hsh exists_,
       if exists_ && bool_decide (Exists (λ m, Hash m = hsh) l) then (None, true)
       else match filter (λ m, Filename m = file ∧ Glob m = []) l with
            | m :: _ => (Some m, true)
            | [] => (None, false)
            end |}.

(** After the fetch of [hello.txt] has moved the file into place, and
    before the deferred cleanup has run: the file is on disk and the
    Transfer is still registered. *)
Definition placed : World :=
  set_fs <["/srv/hello.txt" := File (Scenario.abcd ++ Scenario.efgh ++ Scenario.ij) 420%N]>
    Scenario.w0.

(** Two nodes were reached, one answers, then silence. *)
Definition asked : World :=
  set_sends (λ _, [Some ["A"; "C"]]) (set_inbox (λ _, [Some Scenario.ack])
    (set_tids (λ _, [7]) (set_transfers (λ _, ∅) Scenario.w0))).

(** The source of [hello.txt] declared an empty file. *)
Definition ack0 : Message :=
  {| From := "A"; Type_ := TYPE_RESPONSE; Filename := Scenario.f; Perm := 420%N;
     Glob := []; Part := 0; TID := 7; ACK := true; Data := []; Hash := "" |}.

(** Node [A] answers every XFER; with no random draws the parts are asked
    for in the order 1, 2, 0. *)
Definition answered : World :=
  set_inbox (λ _, [Some (Scenario.part 1 true Scenario.efgh);
                   Some (Scenario.part 2 true Scenario.ij);
                   Some (Scenario.part 0 true Scenario.abcd)])
    (set_names (λ _, ["123"]) Scenario.w0).

(** The world at the end of the loop over the parts. *)
Definition fetched : World :=
  Eval vm_compute in
    match fetchPhase Scenario.ack answered with
    | Done _ w => w
    | _ => answered
    end.

(** ** More worlds to run the engine on *)

(** Node [B] after it snooped part 1 of [hello.txt]. *)
Definition snooped : World :=
  set_pmaps <[1%positive := {[1 := true]}]>
    (set_fs <["/srv/transfer_1/hello.txt.part_1" := File Scenario.efgh 436%N]>
       Scenario.w0).

(** The sleeps in a trace. *)
Definition isSleep (e : Event) : bool :=
  match e with
  | EvSleep _ => true
  | _ => false
  end.

Definition sleepCount (tr : list Event) : nat :=
  length (filter (λ e, isSleep e = true) tr).

(** The parts of [hello.txt] are fetched, but part 2 is gone from the
    scratch directory. *)
Definition part2_lost : World :=
  set_fs (delete "/srv/transfer_1/hello.txt.part_2") fetched.

(** The parts of [hello.txt] are fetched, and the name that
    [ioutil.TempFile] settles on is taken. *)
Definition name_taken : World :=
  set_fs <["/srv/transfer_1/cat_123" := File [] 384%N]> fetched.

(** ** The world after a round of [info]

    The request of [info] for [file] was registered, broadcast and
    released, and the waits have left [rest] of the script of responses. *)
Definition afterInfo (file : string) (rest : list (option Message)) (w : World) : World :=
  set_inbox (λ _, rest)
    (set_TIDs (λ s, ({[hd 0 (tids w)]} ∪ s) ∖ {[hd 0 (tids w)]})
       (set_sends (drop 1)
          (set_trace
             (λ t, (t ++ [EvBroadcast (request (name w) TYPE_INFO file (hd 0 (tids w)) 0)])%list)
             (set_tids (drop 1) w)))).





(** ** [whoHas]

    The errors of [whoHas], which it makes on the spot. *)
Inductive WhoHasError := WhoTransport | WhoTooManyTimeouts | WhoNotFound.

#[global] Instance WhoHasError_eq_dec : EqDecision WhoHasError.
Proof. solve_decision. Defined.

(** The loop of [whoHas] that waits for a response, or too many timeouts;
    [n] waits are left and [timeoutCount] timeouts were counted. *)
Fixpoint whoHasLoop (n : nat) (timeoutCount : nat) : M (WhoHasError + string) :=
  match n with
  | O => mret (inl WhoNotFound)
  | S n' =>
      r ← recv;
      match r with
      | Some resp =>
          if ACK resp then mret (inr (From resp))
          else whoHasLoop n' timeoutCount
      | None =>
          if decide (S timeoutCount = MAX_ATTEMPTS) then mret (inl WhoTooManyTimeouts)
          else whoHasLoop n' (S timeoutCount)
      end
  end.

Definition whoHas (filename : string) (p : Z) : M (WhoHasError + string) :=
  tid ← newTID;
  defer (unregisterTID tid) (
    from ← gets name;
    let m := request from TYPE_WHOHAS filename tid p in
    r ← Broadcast m;
    match r with
    | None => mret (inl WhoTransport)
    | Some recipients => whoHasLoop (length recipients) 0
    end).

(** The timeouts among the first [k] waits on a script of responses; a
    script that has run out stands for silence. *)
Fixpoint silences (k : nat) (l : list (option Message)) : nat :=
  match k with
  | O => O
  | S k' =>
      match l with
      | [] => S (silences k' [])
      | None :: l' => S (silences k' l')
      | Some _ :: l' => silences k' l'
      end
  end.

(** What the loop of [whoHas] returns after [k] waits on the script [l],
    when it had counted [c] timeouts before. *)
Definition whoHasPost (n c : nat) (l : list (option Message))
    (r : WhoHasError + string) (k : nat) : Prop :=
  (k ≤ n)%nat
  ∧ (∀ i resp, (S i < k)%nat → l !! i = Some (Some resp) → ACK resp = false)
  ∧ match r with
    | inr nm =>
        ∃ j resp, k = S j ∧ l !! j = Some (Some resp) ∧ ACK resp = true
          ∧ nm = From resp ∧ (c + silences k l < MAX_ATTEMPTS)%nat
    | inl WhoTooManyTimeouts =>
        ∃ j, k = S j ∧ mjoin (l !! j) = None
          ∧ (c + silences k l)%nat = MAX_ATTEMPTS
    | inl WhoNotFound =>
        k = n ∧ (c + silences k l < MAX_ATTEMPTS)%nat
        ∧ ∀ i resp, (i < k)%nat → l !! i = Some (Some resp) → ACK resp = false
    | inl WhoTransport => False
    end.

(** ** [Info] *)

(** [strings.Contains]. *)
Definition Contains (s sub : string) : bool :=
  bool_decide (is_Some (String.index 0 sub s)).

(** The loop of [Info] that waits for [n] responses, or a timeout, which
    makes it return nil. *)
Fixpoint search (n : nat) (ret : list string) : M (list string) :=
  match n with
  | O => mret ret
  | S n' =>
      r ← recv;
      match r with
      | Some resp =>
          if ACK resp then
            if bool_decide (length (Glob resp) = 0%nat) then
              (* exact match unless the exact match is the original glob *)
              if negb (Contains (Filename resp) "*")
              then search n' (ret ++ [Filename resp])%list
              else search n' ret
            else search n' (ret ++ Glob resp)%list
          else search n' ret
      | None => mret []
      end
  end.

(** [Info] searches the mesh for the file, glob or directory and returns
    the matches, the local ones first. [iom.List] and [iom.Rel] are not
    among the sources: [local] is the list of relative names that the
    local search gives. A nil slice is the empty list. *)
Definition Info (local : list string) (file : string) : M (list string) :=
  let ret := local in
  tid ← newTID;
  defer (unregisterTID tid) (
    from ← gets name;
    let m := request from TYPE_INFO file tid 0 in
    r ← Broadcast m;
    match r with
    | None => mret []
    | Some recipients => search (length recipients) ret
    end).

(** ** [Stream] *)

Inductive StreamError := StreamInfo (e : error) | StreamNotFound | StreamGlob.

(** What [Stream] returns: the channel of [stream] on a local path (the
    function [stream] is not among the sources), an error, or the channel
    that the goroutine it starts feeds from the source message [u]. *)
Inductive StreamResult :=
  | FromDisk (path : string)
  | Failed (e : StreamError)
  | FromMesh (u : Message).



Section Streaming.
Context (F : FilesOps).

(** [Stream] requests each part of the file in order; it does not store
    the file locally. *)
Definition Stream (file : string) : M StreamResult :=
  b ← gets base;
  h ← gets head;
  st ← gets (λ w, os.Stat (fs w) (filepath.Join b file));
  let isFile := match st with Some nd => negb (os.IsDir nd) | None => false end in
  if isFile && bool_decide (h = "") then mret (FromDisk (filepath.Join b file))
  else
    let exists_ := isFile in
    r ← info F file;
    match r with
    | inl e => mret (Failed (StreamInfo e))
    | inr inf =>
        if bool_decide (length (messages F inf) = 0%nat) then mret (Failed StreamNotFound)
        else
          hsh ← getHash file;
          match use F inf file hsh exists_ with
          | (_, false) => mret (Failed StreamGlob)
          | (None, true) => mret (FromDisk (filepath.Join b file))
          | (Some u, true) => mret (FromMesh u)
          end
    end.

End Streaming.

(** Three of the four nodes that got the WHOHAS request answer: [C] has
    not got the part, then a wait times out, then [A] has it. *)
Definition nack (from : string) : Message :=
  {| From := from; Type_ := TYPE_RESPONSE; Filename := Scenario.f; Perm := 0%N;
     Glob := []; Part := 1; TID := 7; ACK := false; Data := []; Hash := "" |}.

Definition polled : World :=
  set_sends (λ _, [Some ["A"; "C"; "D"; "E"]])
    (set_inbox (λ _, [Some (nack "C"); None; Some (Scenario.part 1 true Scenario.efgh);
                      Some (nack "D")])
       (set_tids (λ _, [7]) Scenario.w0)).

(** The answers to an INFO request for [*.txt]: node [A] has [hello.txt],
    node [C] answers for a directory with two entries, node [D] echoes
    the pattern. *)
Definition ackGlob : Message :=
  {| From := "C"; Type_ := TYPE_RESPONSE; Filename := "docs"; Perm := 493%N;
     Glob := ["docs/a.txt"; "docs/b.txt"]; Part := 0; TID := 7; ACK := true;
     Data := []; Hash := "" |}.

Definition ackPattern : Message :=
  {| From := "D"; Type_ := TYPE_RESPONSE; Filename := "*.txt"; Perm := 0%N;
     Glob := []; Part := 0; TID := 7; ACK := true; Data := []; Hash := "" |}.

Definition searched : World :=
  set_sends (λ _, [Some ["A"; "C"; "D"]])
    (set_inbox (λ _, [Some Scenario.ack; Some ackGlob; Some ackPattern])
       (set_tids (λ _, [7]) (set_transfers (λ _, ∅) Scenario.w0))).


(** What a response adds to the matches of [Info]. *)
Definition matchesOf (resp : Message) : list string :=
  if ACK resp then
    if bool_decide (length (Glob resp) = 0%nat) then
      if negb (Contains (Filename resp) "*") then [Filename resp] else []
    else Glob resp
  else [].

(** ** [New]

    [New] returns a new node serving the base directory, or [None] for the
    error of [os.MkdirAll]. [nm] is the name of the mesh node and [env] the
    world the node starts in, from which it takes the disk and the scripts
    of the mesh. The two goroutines it starts, the hasher and the message
    handler, are not among the sources. *)
Definition New (b : string) (nm : string) (h : string) (hs : bool) (env : World)
  : option World :=
  let b := filepath.Clean b in
  fs1 ← os.MkdirAll b 493%N (fs env);                      (* 0755 *)
  Some {| base := b; name := nm; head := h; hash := hs;
          transfers := ∅; objs := ∅; pmaps := ∅;
          TIDs := ∅; hashes := ∅; queue := 0; spawned := [];
          fs := fs1; trace := [];
          sends := sends env; inbox := inbox env; rand := rand env;
          tids := tids env; names := names env |}.









(** * Theorems *)

(** ** The path helpers on examples *)

Example Clean_ex1 : filepath.Clean "/a//b/./c/../d/" = "/a/b/d".
Proof. reflexivity. Qed.

Example Clean_ex2 : filepath.Clean "../../a" = "../../a" ∧ filepath.Clean "/../a" = "/a"
  ∧ filepath.Clean "" = ".".
Proof. repeat split; reflexivity. Qed.

Example Join_ex : filepath.Join "/srv/files" "dir/x" = "/srv/files/dir/x".
Proof. reflexivity. Qed.

Example Base_ex : filepath.Base "dir/x.img" = "x.img" ∧ filepath.Base "dir/" = "dir"
  ∧ filepath.Base "" = "." ∧ filepath.Base "///" = "/".
Proof. repeat split; reflexivity. Qed.

Example Dir_ex : filepath.Dir "/srv/files/dir/x" = "/srv/files/dir"
  ∧ filepath.Dir "x" = "." ∧ filepath.Dir "/x" = "/".
Proof. repeat split; reflexivity. Qed.

Example ancestors_ex : os.ancestors "/srv/files/dir" = ["/srv"; "/srv/files"; "/srv/files/dir"].
Proof. reflexivity. Qed.

Example partFile_ex :
  partFile "/srv/transfer_42" "dir/x.img" 7 = "/srv/transfer_42/x.img.part_7".
Proof. reflexivity. Qed.

Example syscallMode_ex :
  os.syscallMode 420 = 420%N                       (* 0644 *)
  ∧ os.syscallMode 2541 = 493%N                    (* 04755 gives 0755 *)
  ∧ os.syscallMode (N.lor (N.shiftl 1 23) 493) = 2541%N.   (* ModeSetuid | 0755 *)
Proof. repeat split; reflexivity. Qed.

(** ** Stepping through engine code *)

Lemma bind_Done {A B} (m : M A) (k : A → M B) w a w' :
  m w = Done a w' → (m ≫= k) w = k a w'.
Proof. intros E. unfold mbind, M_bind. by rewrite E. Qed.

Ltac mstep E := rewrite (bind_Done _ _ _ _ _ E).

Lemma bind_gets {A B} (g : World → A) (k : A → M B) w :
  (gets g ≫= k) w = k (g w) w.
Proof. reflexivity. Qed.

Lemma bind_modify {B} (g : World → World) (k : unit → M B) w :
  (modify g ≫= k) w = k tt (g w).
Proof. reflexivity. Qed.

Lemma bind_ret {A B} (a : A) (k : A → M B) w :
  (mret a ≫= k) w = k a w.
Proof. reflexivity. Qed.

Lemma bind_assoc {A B C} (m : M A) (f : A → M B) (g : B → M C) w :
  ((m ≫= f) ≫= g) w = (m ≫= (λ x, f x ≫= g)) w.
Proof. unfold mbind, M_bind. by destruct (m w). Qed.

Lemma bind_Done_inv {A B} (m : M A) (k : A → M B) w b w' :
  (m ≫= k) w = Done b w' → ∃ a w1, m w = Done a w1 ∧ k a w1 = Done b w'.
Proof. unfold mbind, M_bind. destruct (m w); try done. eauto. Qed.

Lemma ret_Done_inv {A} (a b : A) (w w' : World) :
  (mret a : M A) w = Done b w' → a = b ∧ w = w'.
Proof. cbv [mret M_ret]. by intros [= -> ->]. Qed.

Lemma defer_Done {A} (d : M unit) (body : M A) w a w1 w2 :
  body w = Done a w1 → d w1 = Done tt w2 → defer d body w = Done a w2.
Proof. intros Eb Ed. unfold defer. mstep Eb. by mstep Ed. Qed.

Lemma returns_inv {A} (r : Res A) (Q : A → World → Prop) :
  returns r Q → ∃ a w', r = Done a w' ∧ Q a w'.
Proof. destruct r; simpl; try done. eauto. Qed.

Lemma returns_mono {A} (r : Res A) (Q Q' : A → World → Prop) :
  returns r Q → (∀ a w, Q a w → Q' a w) → returns r Q'.
Proof. destruct r; simpl; auto. Qed.

Lemma returns_bind {A B} (m : M A) (k : A → M B) (w : World) (Q : B → World → Prop) :
  returns (m w) (λ a w1, returns (k a w1) Q) → returns ((m ≫= k) w) Q.
Proof. unfold mbind, M_bind. by destruct (m w). Qed.

(** What the primitive actions return, as equations. *)
Lemma recv_eq w : recv w = Done (hd None (inbox w)) (set_inbox (drop 1) w).
Proof. reflexivity. Qed.

Lemma Int63n_eq n w : Int63n n w = Done (hd 0 (rand w) `mod` n) (set_rand (drop 1) w).
Proof. reflexivity. Qed.

Lemma newTID_eq w :
  newTID w = Done (hd 0 (tids w))
               (set_TIDs (λ s, {[hd 0 (tids w)]} ∪ s) (set_tids (drop 1) w)).
Proof. reflexivity. Qed.

Lemma unregisterTID_eq t w : unregisterTID t w = Done tt (set_TIDs (λ s, s ∖ {[t]}) w).
Proof. reflexivity. Qed.

Lemma Sleep_eq ms w : Sleep ms w = Done tt (set_trace (λ t, (t ++ [EvSleep ms])%list) w).
Proof. reflexivity. Qed.

Lemma Broadcast_eq m w :
  Broadcast m w
  = Done (hd (Some []) (sends w))
      (set_sends (drop 1) (set_trace (λ t, (t ++ [EvBroadcast m])%list) w)).
Proof. reflexivity. Qed.

Lemma NodeSet_eq to m w :
  NodeSet to m w
  = Done (bool_decide (is_Some (hd (Some []) (sends w))))
      (set_sends (drop 1) (set_trace (λ t, (t ++ [EvSend to m])%list) w)).
Proof. reflexivity. Qed.

Lemma lookupTransfer_eq f w : lookupTransfer f w = Done (transfers w !! f) w.
Proof. reflexivity. Qed.

Lemma deref_Some a t w : objs w !! a = Some t → deref (Some a) w = Done t w.
Proof. intros E. unfold deref, mbind, M_bind, gets. by rewrite E. Qed.

Lemma deref_Done_inv o w t w' : deref o w = Done t w' → w' = w.
Proof.
  unfold deref. destruct o as [a|]; [|done]. rewrite bind_gets.
  destruct (objs w !! a); [|done]. by intros [_ ->]%ret_Done_inv.
Qed.

Lemma partsGet_completed t p w : partsGet t p w = Done (completed w t p) w.
Proof. reflexivity. Qed.

Lemma partsSet_Some t p v m w :
  pmaps w !! Parts t = Some m →
  partsSet t p v w = Done tt (set_pmaps <[Parts t := <[p := v]> m]> w).
Proof. intros E. unfold partsSet, mbind, M_bind, gets. by rewrite E. Qed.

Lemma completed_set t p m w :
  completed (set_pmaps <[Parts t := <[p := true]> m]> w) t p = true.
Proof. unfold completed. simpl. rewrite lookup_insert_eq. simpl. by rewrite lookup_insert_eq. Qed.

Lemma fsTry_Some op fs' w :
  op (fs w) = Some fs' → fsTry op w = Done true (set_fs (λ _, fs') w).
Proof. intros E. unfold fsTry, mbind, M_bind, gets. by rewrite E. Qed.

Lemma fsTry_None op w : op (fs w) = None → fsTry op w = Done false w.
Proof. intros E. unfold fsTry, mbind, M_bind, gets. by rewrite E. Qed.

Lemma fsTry_trace (op : FS → option FS) (w w' : World) (b : bool) :
  fsTry op w = Done b w' → trace w' = trace w.
Proof.
  unfold fsTry. rewrite bind_gets. destruct (op (fs w)); intros E.
  - rewrite bind_modify in E. cbv [mret M_ret] in E. by simplify_eq.
  - cbv [mret M_ret] in E. by simplify_eq.
Qed.


(** ** The file system *)

Lemma WriteFile_lookup p d pm fs fs' :
  os.WriteFile p d pm fs = Some fs' → ∃ pm', fs' !! p = Some (File d pm').
Proof.
  unfold os.WriteFile. intros E.
  destruct (fs !! p) as [[d0 pm0|pm0]|] eqn:Ep; simplify_eq.
  - exists pm0. apply lookup_insert_eq.
  - destruct (os.isFolder fs (filepath.Dir p)); simplify_eq.
    exists pm. apply lookup_insert_eq.
Qed.

Lemma RemoveAll_inside dir p fs :
  os.inside dir p = true → os.RemoveAll dir fs !! p = None.
Proof.
  intros Hin. unfold os.RemoveAll. apply map_lookup_filter_None. right.
  intros x _. simpl. by rewrite Hin.
Qed.

Lemma RemoveAll_outside dir p fs :
  os.inside dir p = false → os.RemoveAll dir fs !! p = fs !! p.
Proof.
  intros Hout. unfold os.RemoveAll.
  destruct (fs !! p) as [x|] eqn:E.
  - apply map_lookup_filter_Some. done.
  - apply map_lookup_filter_None. by left.
Qed.

Lemma prefix_app (s t : string) : String.prefix s (s +:+ t) = true.
Proof.
  induction s as [|c s IH].
  - by destruct t.
  - change (String c s +:+ t) with (String c (s +:+ t)). simpl.
    by destruct (ascii_dec c c).
Qed.

Lemma app_assoc_str (a b c : string) : (a +:+ b) +:+ c = a +:+ (b +:+ c).
Proof.
  induction a as [|x a IH]; [done|].
  change (String x (a +:+ b) +:+ c = String x (a +:+ (b +:+ c))).
  change (String x ((a +:+ b) +:+ c) = String x (a +:+ (b +:+ c))). by rewrite IH.
Qed.

Lemma inside_partFile (D f : string) (p : Z) : os.inside D (partFile D f p) = true.
Proof.
  unfold os.inside, partFile. rewrite <- app_assoc_str.
  rewrite prefix_app. apply orb_true_r.
Qed.

Lemma WriteFile_inside D path d pm fs fs' :
  os.WriteFile path d pm fs = Some fs' → os.inside D path = true →
  os.RemoveAll D fs' = os.RemoveAll D fs.
Proof.
  intros Hw Hin.
  assert (Hfs : ∃ x, fs' = <[path := x]> fs).
  { unfold os.WriteFile in Hw. destruct (fs !! path) as [[? ?|?]|]; simplify_eq; eauto.
    destruct (os.isFolder fs (filepath.Dir path)); simplify_eq; eauto. }
  destruct Hfs as [x ->]. apply map_eq. intros k.
  destruct (os.inside D k) eqn:Hk.
  - by rewrite !RemoveAll_inside.
  - rewrite !RemoveAll_outside by done. apply lookup_insert_ne. congruence.
Qed.


Lemma mkdirs_preserves ps perm (fs fs' : FS) p x :
  os.mkdirs ps perm fs = Some fs' → fs !! p = Some x → fs' !! p = Some x.
Proof.
  revert fs. induction ps as [|p0 ps IH]; intros fs Hm Hp; simpl in Hm.
  - by simplify_eq.
  - destruct (bool_decide (p0 = ".")); [by eapply IH|].
    destruct (fs !! p0) as [[? ?|?]|] eqn:E0; [done|by eapply IH|].
    eapply IH; [exact Hm|]. rewrite lookup_insert_ne; [done|]. congruence.
Qed.

(** ** The snoop cache *)

(** C10. A message that is not a RESPONSE, or is a NACK, or carries no
    payload makes [MITM] return at once: the world, with its part files and
    Transfer records, is as before, whatever transfers are registered. *)
Theorem MITM_ignores_other_messages (m : Message) (w : World) :
  Type_ m ≠ TYPE_RESPONSE ∨ ACK m = false ∨ Data m = [] →
  MITM m w = Done tt w.
Proof.
  intros Hg. unfold MITM.
  destruct Hg as [Hty | [Hack | Hdata]].
  - rewrite bool_decide_eq_false_2 by done. reflexivity.
  - rewrite Hack. by rewrite orb_true_r.
  - rewrite Hdata. by rewrite !orb_true_r.
Qed.

Lemma MITM_ignores_other_messages_witness :
  transferOf Scenario.w0 Scenario.f = Some Scenario.t0
  ∧ completed Scenario.w0 Scenario.t0 1 = false
  ∧ MITM (Scenario.part 1 false Scenario.efgh) Scenario.w0 = Done tt Scenario.w0.
Proof.
  split; [compute_done|]. split; [compute_done|].
  apply MITM_ignores_other_messages. right; left. reflexivity.
Defined.

(** C5, as stated, fails: a forwarded RESPONSE that is a NACK meets the
    three conditions (a Transfer for its filename, the part neither in
    flight nor completed) and nothing is written or marked. *)
Lemma MITM_nack_not_cached :
  let m := Scenario.part 1 false Scenario.efgh in
  let w := Scenario.w0 in
  Type_ m = TYPE_RESPONSE
  ∧ transferOf w (Filename m) = Some Scenario.t0
  ∧ Inflight Scenario.t0 ≠ Part m
  ∧ completed w Scenario.t0 (Part m) = false
  ∧ ∃ w', MITM m w = Done tt w'
      ∧ fs w' !! partFile (Dir Scenario.t0) (TFilename Scenario.t0) (Part m) = None
      ∧ completed w' Scenario.t0 (Part m) = false.
Proof.
  split_and!; [reflexivity|compute_done|discriminate|compute_done|].
  exists Scenario.w0. split_and!; compute_done.
Qed.

(** C5, amended. For a forwarded RESPONSE that is an ACK with a payload:
    when a live Transfer exists for its filename, the part is neither the
    one in flight nor completed, and the write succeeds, the payload is the
    part file of the scratch directory and the part is marked completed,
    the transfers map and the records being as before; when no Transfer
    exists for its filename, [MITM] returns and leaves the world as it
    was. *)
Theorem MITM_caches_wanted_part (m : Message) (w : World) :
  Type_ m = TYPE_RESPONSE → ACK m = true → Data m ≠ [] →
  (∀ a t done fs',
     transfers w !! Filename m = Some a → objs w !! a = Some t →
     pmaps w !! Parts t = Some done →
     Inflight t ≠ Part m → completed w t (Part m) = false →
     os.WriteFile (partFile (Dir t) (TFilename t) (Part m)) (Data m) 436%N (fs w)
       = Some fs' →
     ∃ w' pm, MITM m w = Done tt w'
       ∧ fs w' = fs'
       ∧ fs w' !! partFile (Dir t) (TFilename t) (Part m) = Some (File (Data m) pm)
       ∧ completed w' t (Part m) = true
       ∧ pmaps w' = <[Parts t := <[Part m := true]> done]> (pmaps w)
       ∧ transfers w' = transfers w ∧ objs w' = objs w)
  ∧ (transfers w !! Filename m = None → MITM m w = Done tt w).
Proof.
  intros Hty Hack Hdata.
  assert (Hguard : negb (bool_decide (Type_ m = TYPE_RESPONSE)) || negb (ACK m)
                   || bool_decide (length (Data m) = 0%nat) = false).
  { rewrite bool_decide_eq_true_2 by done. rewrite Hack. simpl.
    apply bool_decide_eq_false_2. by destruct (Data m). }
  split.
  - intros a t done fs' Ha Ht Hmap Hfl Hnot Hwr.
    destruct (WriteFile_lookup _ _ _ _ _ Hwr) as [pm Hpm].
    eexists _, pm. unfold MITM. rewrite Hguard.
    unfold lookupTransfer. rewrite bind_gets, Ha.
    rewrite (bind_Done _ _ _ _ _ (deref_Some _ _ _ Ht)).
    rewrite decide_False by done.
    rewrite (bind_Done _ _ _ _ _ (partsGet_completed _ _ _)), Hnot.
    rewrite (bind_Done _ _ _ _ _ (fsTry_Some _ _ _ Hwr)).
    rewrite (partsSet_Some _ _ _ done) by done.
    split; [reflexivity|]. simpl. repeat split; try done.
    unfold completed. simpl. rewrite lookup_insert_eq. simpl. by rewrite lookup_insert_eq.
  - intros Hnone. unfold MITM. rewrite Hguard.
    unfold lookupTransfer. by rewrite bind_gets, Hnone.
Qed.

Lemma MITM_caches_wanted_part_witness :
  ∃ w', MITM (Scenario.part 1 true Scenario.efgh) Scenario.w0 = Done tt w'
     ∧ fs w' = <["/srv/transfer_1/hello.txt.part_1" := File Scenario.efgh 436%N]>
                 Scenario.disk
     ∧ completed w' Scenario.t0 1 = true.
Proof.
  destruct (MITM_caches_wanted_part (Scenario.part 1 true Scenario.efgh) Scenario.w0)
    as [H _]; [reflexivity | reflexivity | discriminate |].
  destruct (H 1%positive Scenario.t0 ∅
              (<["/srv/transfer_1/hello.txt.part_1" := File Scenario.efgh 436%N]>
                 Scenario.disk))
    as (w' & pm & E & Hfs & _ & C & _);
    [compute_done | compute_done | compute_done | discriminate | compute_done
    | compute_done | ].
  exists w'. split; [exact E|]. split; [exact Hfs|exact C].
Defined.

(** ** [Get] *)

Section GetTheorems.
Context (F : FilesOps).

(** C3. When the name resolves to a local regular file under the base
    path and head-node mode is off, [Get] returns nil at once and the
    world is as before: nothing is sent (the trace and the scripts of the
    mesh are untouched) and no Transfer is made. In particular a second
    [Get] after a completed one changes nothing. *)
Theorem Get_local_file_returns_nil (fuel : nat) (file : string) (w : World)
    (d : list byte) (pm : N) :
  fs w !! filepath.Join (base w) file = Some (File d pm) →
  head w = "" →
  Get F (S fuel) file w = Done None w.
Proof.
  intros Hst Hhead. simpl.
  rewrite !bind_gets. unfold os.Stat. rewrite Hst, Hhead. reflexivity.
Qed.

(** C1, amended. When a Transfer is registered for the filename, [Get]
    returns without touching the world: no INFO request is broadcast and
    no Transfer is made. It returns [ErrInFlight], unless the name
    resolves to a local regular file and head-node mode is off, which is
    checked first and gives nil. *)
Theorem Get_registered_transfer (fuel : nat) (file : string) (w : World) (a : ptr) :
  transfers w !! file = Some a →
  Get F (S fuel) file w
  = Done (if localFile w file && bool_decide (head w = "")
          then None else Some ErrInFlight) w.
Proof.
  intros Ha. simpl. rewrite !bind_gets. unfold localFile.
  destruct (match os.Stat (fs w) (filepath.Join (base w) file) with
            | Some nd => negb (os.IsDir nd) | None => false end
            && bool_decide (head w = "")); [reflexivity|].
  unfold lookupTransfer. rewrite bind_gets, Ha. reflexivity.
Qed.

End GetTheorems.

Lemma Get_local_file_returns_nil_witness :
  Get listFiles 1 "hello.txt" placed = Done None placed
  ∧ trace placed = [] ∧ sends placed = [].
Proof.
  split; [|split; reflexivity].
  apply (Get_local_file_returns_nil listFiles 0 "hello.txt" placed
           (Scenario.abcd ++ Scenario.efgh ++ Scenario.ij) 420%N);
    [compute_done | reflexivity].
Defined.

(** C1, as stated, fails: with a Transfer registered for the filename, the
    file on disk and head-node mode off, [Get] returns nil, not
    [ErrInFlight]. *)
Lemma Get_registered_returns_nil :
  transfers placed !! "hello.txt" = Some 1%positive
  ∧ Get listFiles 1 "hello.txt" placed = Done None placed
  ∧ Get listFiles 1 "hello.txt" placed ≠ Done (Some ErrInFlight) placed.
Proof.
  split; [compute_done|].
  assert (E : Get listFiles 1 "hello.txt" placed = Done None placed) by compute_done.
  split; [exact E|]. rewrite E. discriminate.
Qed.

Lemma Get_registered_transfer_witness :
  Get listFiles 1 "hello.txt" Scenario.w0 = Done (Some ErrInFlight) Scenario.w0.
Proof.
  assert (Hreg : transfers Scenario.w0 !! "hello.txt" = Some 1%positive) by compute_done.
  rewrite (Get_registered_transfer listFiles 0 "hello.txt" Scenario.w0 1%positive Hreg).
  assert (Hloc : localFile Scenario.w0 "hello.txt" = false) by compute_done.
  rewrite Hloc. reflexivity.
Defined.

(** ** INFO collection *)

Section InfoTheorems.
Context (F : FilesOps).

Lemma collect_responses (resps : list Message) (n : nat) (acc : Files F)
    (tl : list (option Message)) (w : World) :
  inbox w = ((Some <$> resps) ++ tl)%list →
  collect F (length resps + n) acc w
  = collect F n (aggregate F acc resps) (set_inbox (λ _, tl) w).
Proof.
  revert acc w. induction resps as [|r resps IH]; intros acc w Hin.
  - simpl in *. destruct w; simpl in *. by subst.
  - simpl. mstep (recv_eq w). rewrite Hin. simpl.
    rewrite (IH _ (set_inbox (drop 1) w)); [reflexivity|].
    simpl. by rewrite Hin.
Qed.

Lemma collect_timeout (n : nat) (acc : Files F) (w : World) :
  hd None (inbox w) = None →
  collect F (S n) acc w = Done (inl ErrTimeout) (set_inbox (drop 1) w).
Proof.
  intros Hhd. simpl. mstep (recv_eq w). by rewrite Hhd.
Qed.

(** [info] up to its loop: the request is registered and broadcast, and
    the deferred release runs on what the loop returns. *)
Lemma info_unfold (file : string) (w : World) (rs : list string) :
  hd (Some []) (sends w) = Some rs →
  let tid := hd 0 (tids w) in
  let w1 := set_sends (drop 1)
              (set_trace (λ t, (t ++ [EvBroadcast (request (name w) TYPE_INFO file tid 0)])%list)
                 (set_TIDs (λ s, {[tid]} ∪ s) (set_tids (drop 1) w))) in
  info F file w
  = match collect F (length rs) (NewFiles F (head w) (hash w)) w1 with
    | Done a w' => Done a (set_TIDs (λ s, s ∖ {[tid]}) w')
    | Panic => Panic
    | Blocked => Blocked
    | OutOfFuel => OutOfFuel
    end.
Proof.
  intros Hs tid w1. unfold info, defer. mstep (newTID_eq w).
  unfold mbind at 1. unfold M_bind at 1.
  rewrite bind_gets.
  mstep (Broadcast_eq (request (name w) TYPE_INFO file tid 0)
           (set_TIDs (λ s, {[tid]} ∪ s) (set_tids (drop 1) w))).
  cbn [sends set_trace set_TIDs set_tids set_sends]. rewrite Hs.
  rewrite !bind_gets. reflexivity.
Qed.

(** C6, amended. In a round of [info] whose broadcast reached the
    recipients [rs]: when as many responses arrive as there are
    recipients, the round yields the ACKs among them, aggregated; when
    fewer arrive before a wait times out, the round ends at that wait (no
    later wait is made: the rest of the script is left) and returns the
    timeout error, not the ACKs aggregated so far. Either way the
    request was broadcast once and its transfer id is released. *)
Theorem info_collects_or_times_out (file : string) (w : World)
    (rs : list string) (resps : list Message) (rest : list (option Message)) :
  hd (Some []) (sends w) = Some rs →
  let tid := hd 0 (tids w) in
  let sent := (trace w ++ [EvBroadcast (request (name w) TYPE_INFO file tid 0)])%list in
  (inbox w = ((Some <$> resps) ++ rest)%list → length resps = length rs →
     ∃ w', info F file w
           = Done (inr (aggregate F (NewFiles F (head w) (hash w)) resps)) w'
       ∧ inbox w' = rest ∧ trace w' = sent ∧ tid ∉ TIDs w')
  ∧ (inbox w = ((Some <$> resps) ++ rest)%list → hd None rest = None →
     (length resps < length rs)%nat →
     ∃ w', info F file w = Done (inl ErrTimeout) w'
       ∧ inbox w' = drop 1 rest ∧ trace w' = sent ∧ tid ∉ TIDs w').
Proof.
  intros Hs tid sent. split.
  - intros Hin Hlen. eexists. split.
    + rewrite (info_unfold file w rs Hs).
      rewrite <- Hlen, <- (Nat.add_0_r (length resps)).
      rewrite (collect_responses resps 0 _ rest) by (simpl; exact Hin).
      simpl. reflexivity.
    + simpl. repeat split; try reflexivity.
      intros [_ Hn]%elem_of_difference. apply Hn. by apply elem_of_singleton.
  - intros Hin Hhd Hlen. eexists. split.
    + rewrite (info_unfold file w rs Hs).
      replace (length rs) with (length resps + S (length rs - length resps - 1))%nat by lia.
      rewrite (collect_responses resps _ _ rest) by (simpl; exact Hin).
      rewrite collect_timeout by (simpl; exact Hhd).
      simpl. reflexivity.
    + simpl. repeat split; try reflexivity.
      intros [_ Hn]%elem_of_difference. apply Hn. by apply elem_of_singleton.
Qed.

End InfoTheorems.

(** C6, as stated, fails: one of two recipients has answered with an ACK
    when the next wait times out, and [info] returns the timeout error; the
    ACK it had aggregated is not returned. *)
Lemma info_timeout_drops_acks :
  hd (Some []) (sends asked) = Some ["A"; "C"]
  ∧ inbox asked = [Some Scenario.ack]
  ∧ ∃ w', info listFiles "hello.txt" asked = Done (inl ErrTimeout) w'
        ∧ info listFiles "hello.txt" asked ≠ Done (inr [Scenario.ack]) w'.
Proof.
  split; [reflexivity|]. split; [reflexivity|].
  eexists. split; [vm_compute; reflexivity|]. vm_compute. discriminate.
Qed.

Lemma info_collects_or_times_out_witness :
  ∃ w', info listFiles "hello.txt" asked = Done (inl ErrTimeout) w' ∧ inbox w' = [].
Proof.
  destruct (info_collects_or_times_out listFiles "hello.txt" asked ["A"; "C"]
              [Scenario.ack] [] eq_refl) as [_ H].
  destruct (H eq_refl eq_refl ltac:(simpl; lia)) as (w' & E & Hin & _).
  exists w'. split; assumption.
Defined.

(** ** The part fetcher: the cleanup and the empty file *)

Lemma destroyTempTransfer_registered f a t w :
  transfers w !! f = Some a → objs w !! a = Some t →
  destroyTempTransfer f w
  = Done tt (set_transfers (delete f) (set_fs (os.RemoveAll (Dir t)) w)).
Proof.
  intros Ha Ht. unfold destroyTempTransfer, lookupTransfer.
  rewrite bind_gets, Ha. by mstep (deref_Some _ _ _ Ht).
Qed.



(** ** The part fetcher: one part *)

(** [xfer] always returns; it sends one request and touches neither the
    transfers nor the disk. *)
Lemma xfer_returns (msg : Message) (part : Z) (w : World) :
  ∃ w', xfer msg part w = Done (xferResult w) w'
    ∧ sameStore w w'
    ∧ trace w' = (trace w ++ [xferRequest msg w part])%list.
Proof.
  destruct w as [b nm h hs ts os ps TI hh q sp fs0 tr sn ib rn td ns].
  unfold xfer, xferResult, defer, newTID, NodeSet, recv, unregisterTID, emit.
  cbv [mbind M_bind mret M_ret gets modify]. simpl.
  destruct sn as [|[rs|] sn]; simpl.
  - destruct ib as [|[resp|] ib]; simpl; [|destruct (ACK resp)|];
      eexists; (split; [reflexivity|]); by repeat split.
  - destruct ib as [|[resp|] ib]; simpl; [|destruct (ACK resp)|];
      eexists; (split; [reflexivity|]); by repeat split.
  - eexists; (split; [reflexivity|]); by repeat split.
Qed.

Lemma xferCount_snoc (msg : Message) (w : World) (p q : Z) (tr : list Event) :
  xferCount (Filename msg) q (tr ++ [xferRequest msg w p])
  = (xferCount (Filename msg) q tr + (if decide (q = p) then 1 else 0))%nat.
Proof.
  unfold xferCount. rewrite filter_app, length_app. f_equal.
  unfold xferRequest. rewrite filter_cons. simpl.
  rewrite !bool_decide_eq_true_2 by done. simpl.
  destruct (decide (q = p)) as [->|Hne].
  - by rewrite decide_True by (by apply bool_decide_eq_true_2).
  - rewrite decide_False; [done|]. rewrite bool_decide_eq_false_2; [done|congruence].
Qed.

Lemma xferCount_sleep f q ms tr :
  xferCount f q (tr ++ [EvSleep ms]) = xferCount f q tr.
Proof.
  unfold xferCount. rewrite filter_app, length_app.
  rewrite filter_cons. simpl. lia.
Qed.

Lemma Keeps_refl f a t w : Live f a t w → Keeps f a t w w.
Proof. intros H. by split_and!. Qed.

Lemma Keeps_trans f a t w1 w2 w3 :
  Keeps f a t w1 w2 → Keeps f a t w2 w3 → Keeps f a t w1 w3.
Proof.
  intros (L2 & B2 & N2 & Q2 & T2 & F2 & M2) (L3 & B3 & N3 & Q3 & T3 & F3 & M3).
  split_and!; try congruence; try apply L3. intros q Hq. auto.
Qed.

Lemma Keeps_set_trace f a t g w : Live f a t w → Keeps f a t w (set_trace g w).
Proof. intros (? & ? & ?). by split; [split_and!|split_and!]. Qed.

(** [getPart] on a live Transfer always returns. *)
Lemma getPart_returns (msg : Message) (p : Z) (a : ptr) (t : Transfer) (w : World) :
  Live (Filename msg) a t w →
  returns (getPart msg p w) (getPartPost msg p a t w).
Proof.
  intros (Hreg & (t0 & Hobj & HD & HP) & [done Hmap]).
  assert (HL : Live (Filename msg) a t w) by (split_and!; eauto).
  unfold getPart. mstep (lookupTransfer_eq (Filename msg) w). rewrite Hreg.
  mstep (deref_Some _ _ _ Hobj). mstep (partsGet_completed t0 p w).
  assert (Hc0 : completed w t0 p = completed w t p) by (unfold completed; by rewrite HP).
  rewrite Hc0.
  destruct (completed w t p) eqn:Hdone.
  { simpl. split; [by apply Keeps_refl|].
    split_and!; try done; try lia; try (by intros [? ?]); try congruence. }
  (* the part is wanted: mark it in flight and ask for it *)
  set (wa := set_objs <[a := withInflight p t0]> w).
  assert (Hset : setField (Filename msg) (withInflight p) w = Done tt wa).
  { unfold setField, lookupTransfer. rewrite bind_gets, Hreg.
    by mstep (deref_Some _ _ _ Hobj). }
  mstep Hset.
  destruct (xfer_returns msg p wa) as (wb & Hx & (Hb & Hn & Ht & Ho & Hp & Hf & Hqu) & Htr).
  subst wa. simpl in Hb, Hn, Ht, Ho, Hp, Hf, Hqu.
  mstep Hx.
  assert (Hobjb : objs wb !! a = Some (withInflight p t0)).
  { rewrite Ho. apply lookup_insert_eq. }
  assert (Hcnt : ∀ q, xferCount (Filename msg) q (trace wb)
           = (xferCount (Filename msg) q (trace w) + (if decide (q = p) then 1 else 0))%nat).
  { intros q. rewrite Htr. apply xferCount_snoc. }
  assert (HKb : Keeps (Filename msg) a t w wb).
  { split; [split_and!|split_and!].
    - rewrite Ht. exact Hreg.
    - exists (withInflight p t0). by split_and!.
    - rewrite Hp. simpl. eauto.
    - by rewrite Hb.
    - by rewrite Hn.
    - by rewrite Hqu.
    - by rewrite Ht.
    - by rewrite Hf.
    - intros q. unfold completed. by rewrite Hp. }
  assert (Hcb : ∀ q, completed wb t q = completed w t q).
  { intros q. unfold completed. by rewrite Hp. }
  change (xferResult (set_objs <[a:=withInflight p t0]> w)) with (xferResult w).
  destruct (xferResult w) as [e|data] eqn:Hres.
  { simpl. split; [exact HKb|].
    split_and!; try done.
    - intros q Hq. rewrite Hcnt. rewrite decide_False by done. lia.
    - rewrite Hcnt. rewrite decide_True by done. lia.
    - intros _. rewrite Hcnt. rewrite decide_True by done. lia.
    - intros _. eauto. }
  mstep (lookupTransfer_eq (Filename msg) wb). rewrite Ht, Hreg.
  mstep (deref_Some _ _ _ Hobjb). simpl Dir.
  destruct (os.WriteFile (partFile (Dir t0) (Filename msg) p) data 436%N (fs wb))
    as [fs'|] eqn:Hw.
  - mstep (fsTry_Some _ _ _ Hw).
    assert (Hmapb : pmaps (set_fs (λ _, fs') wb) !! Parts (withInflight p t0) = Some done).
    { simpl. rewrite Hp. simpl. by rewrite HP. }
    mstep (partsSet_Some _ p true done _ Hmapb).
    simpl. rewrite HP.
    split; [|split_and!].
    + split; [split_and!|split_and!].
      * simpl. rewrite Ht. exact Hreg.
      * exists (withInflight p t0). simpl. by rewrite Hobjb.
      * simpl. rewrite lookup_insert_eq. eauto.
      * simpl. by rewrite Hb.
      * simpl. by rewrite Hn.
      * simpl. by rewrite Hqu.
      * simpl. by rewrite Ht.
      * simpl. rewrite <- HD. rewrite (WriteFile_inside _ _ _ _ _ _ Hw (inside_partFile _ _ _)).
        rewrite Hf. reflexivity.
      * intros q Hq. unfold completed. simpl. rewrite lookup_insert_eq. simpl.
        destruct (decide (q = p)) as [->|Hne]; [by rewrite lookup_insert_eq|].
        rewrite lookup_insert_ne by done.
        unfold completed in Hq. rewrite Hmap in Hq. exact Hq.
    + intros _. unfold completed. simpl. rewrite lookup_insert_eq. simpl.
      by rewrite lookup_insert_eq.
    + by intros [? ?].
    + intros q Hq. simpl. rewrite Hcnt. rewrite decide_False by done. lia.
    + simpl. rewrite Hcnt. rewrite decide_True by done. lia.
    + by intros [? ?].
    + intros _. exists (withInflight p t0). simpl. by rewrite Hobjb.
    + intros _ _. destruct (WriteFile_lookup _ _ _ _ _ Hw) as [pm Hpm].
      exists data, pm. split; [done|]. simpl. by rewrite <- HD.
  - mstep (fsTry_None _ _ Hw).
    simpl. split; [exact HKb|].
    split_and!; try done.
    + intros q Hq. rewrite Hcnt. rewrite decide_False by done. lia.
    + rewrite Hcnt. rewrite decide_True by done. lia.
    + intros _. rewrite Hcnt. rewrite decide_True by done. lia.
    + intros _. eauto.
Qed.

(** C7 (the code departs from it). [getPart] sets the in-flight field to
    its part and no code sets it back: after a [getPart] that ended in a
    timeout, and also after the loop over the parts has ended, no part is
    being fetched and the field holds a part index, not -1. *)
Theorem getPart_leaves_Inflight_set :
  (∃ w', getPart Scenario.ack 1 Scenario.w0 = Done (Some ErrTimeout) w'
     ∧ (Inflight <$> transferOf Scenario.w0 "hello.txt") = Some (-1)
     ∧ (Inflight <$> transferOf w' "hello.txt") = Some 1)
  ∧ fetchPhase Scenario.ack answered = Done true fetched
  ∧ (Inflight <$> transferOf fetched "hello.txt") = Some 0.
Proof.
  split; [|split; compute_done].
  eexists. split; [vm_compute; reflexivity|]. split; compute_done.
Qed.

(** ** The shuffle *)

Lemma swap_Permutation {A} `{Inhabited A} (l : list A) (i j : nat) :
  (i < length l)%nat → (j < length l)%nat →
  <[i := l !!! j]> (<[j := l !!! i]> l) ≡ₚ l.
Proof.
  intros Hi Hj. apply Permutation_inj. split.
  - by rewrite !length_insert.
  - exists (λ k, if decide (k = i) then j else if decide (k = j) then i else k).
    split.
    + intros x y. repeat case_decide; intros; simplify_eq; done.
    + intros k. destruct (decide (k = i)) as [->|Hki].
      * rewrite list_lookup_insert_eq by (by rewrite length_insert).
        symmetry. by apply list_lookup_lookup_total_lt.
      * rewrite list_lookup_insert_ne by done.
        destruct (decide (k = j)) as [->|Hkj].
        -- rewrite list_lookup_insert_eq by done.
           symmetry. by apply list_lookup_lookup_total_lt.
        -- by rewrite list_lookup_insert_ne.
Qed.

(** The shuffle always returns, with a permutation of its list; it only
    consumes draws of the random source. *)
Lemma shuffle_returns {A} `{Inhabited A} (i : nat) (l : list A) (w : World) :
  (i < length l)%nat ∨ i = 0%nat →
  ∃ l', shuffle i l w = Done l' (set_rand (drop i) w) ∧ l' ≡ₚ l.
Proof.
  revert l w. induction i as [|i IH]; intros l w Hi.
  - exists l. split; [|done]. destruct w; reflexivity.
  - assert (Hlt : (S i < length l)%nat) by lia.
    cbn [shuffle]. 
    set (j := Z.to_nat ((hd 0 (rand w)) `mod` (Z.of_nat (S i) + 1))).
    assert (Hj : (j < length l)%nat).
    { subst j. pose proof (Z.mod_pos_bound (hd 0 (rand w)) (Z.of_nat (S i) + 1)). lia. }
    destruct (IH (<[S i := l !!! j]> (<[j := l !!! S i]> l)) (set_rand (drop 1) w))
      as (l' & E & Hp).
    { left. rewrite !length_insert. lia. }
    exists l'. split.
    + mstep (Int63n_eq (Z.of_nat (S i) + 1) w). fold j. rewrite E.
      f_equal. destruct w. unfold set_rand. cbn -[drop]. f_equal. apply drop_drop.
    + rewrite Hp. by apply swap_Permutation.
Qed.

(** ** The part fetcher: the attempts at one part, and the loop over
    the parts *)

(** The attempts always return, after at most [n] XFER requests for the
    part and none for another; they report failure only after [n] failed
    requests, the part being as it was. *)
Lemma attempts_returns (msg : Message) (p : Z) (a : ptr) (t : Transfer)
    (n : nat) (attempt : Z) (w : World) :
  Live (Filename msg) a t w →
  returns (attempts n attempt msg p w) (attemptsPost msg p a t n w).
Proof.
  revert attempt w. induction n as [|n IH]; intros attempt w HL.
  - simpl. split; [by apply Keeps_refl|]. split_and!; try done; try lia.
  - cbn [attempts]. apply returns_bind.
    eapply returns_mono; [by apply getPart_returns|].
    intros e w1 (HK1 & Hnil & Herr & Hoth & Hle & Heq & _).
    destruct e as [err|].
    + (* a failed attempt: sleep on a retry, then go on *)
      set (ws := if decide (0 < attempt)
                 then set_trace (λ tr, (tr ++ [EvSleep timeout])%list) w1 else w1).
      assert (Hsl : (if decide (0 < attempt) then Sleep timeout else mret tt) w1
                    = Done tt ws).
      { subst ws. by destruct (decide (0 < attempt)). }
      mstep Hsl.
      assert (HKs : Keeps (Filename msg) a t w1 ws).
      { subst ws. destruct (decide (0 < attempt));
          [apply Keeps_set_trace|apply Keeps_refl]; apply HK1. }
      assert (Hcs : ∀ q, xferCount (Filename msg) q (trace ws)
                        = xferCount (Filename msg) q (trace w1)).
      { intros q. subst ws. destruct (decide (0 < attempt)); [|done].
        simpl. apply xferCount_sleep. }
      assert (Hcomp : ∀ q, completed ws t q = completed w1 t q).
      { intros q. subst ws. by destruct (decide (0 < attempt)). }
      eapply returns_mono; [apply IH, HKs|].
      intros ok w2 (HK2 & Hok & Hfail & Hoth2 & Hle2).
      split; [eapply Keeps_trans; [exact HK1|]; eapply Keeps_trans; eauto|].
      split_and!.
      * exact Hok.
      * intros Hf. destruct (Hfail Hf) as [Hc Hn]. split.
        -- rewrite Hc, Hcomp. apply Herr. eauto.
        -- rewrite Hn, Hcs, Heq by eauto. lia.
      * intros q Hq. rewrite Hoth2, Hcs, Hoth by done. done.
      * rewrite Hcs in Hle2. lia.
    + simpl. split; [exact HK1|]. split_and!; try done.
      * intros _. by apply Hnil.
      * lia.
Qed.

(** The loop over the parts always returns. It sends at most
    [MAX_ATTEMPTS] XFER requests for a part. When it ends, every part is
    completed; when the function returns from inside it, some part is not
    completed after [MAX_ATTEMPTS] requests. *)
Lemma fetchAll_returns (msg : Message) (a : ptr) (t : Transfer)
    (parts : list Z) (w : World) :
  NoDup parts →
  Live (Filename msg) a t w →
  returns (fetchAll msg parts w) (fetchAllPost msg parts a t w).
Proof.
  revert w. induction parts as [|p rest IH]; intros w Hnd HL.
  - simpl. split; [by apply Keeps_refl|]. split_and!; try done.
    + intros _ p Hp. by apply elem_of_nil in Hp.
    + intros q. lia.
  - apply NoDup_cons in Hnd as [Hp Hnd]. cbn [fetchAll].
    apply returns_bind.
    eapply returns_mono; [by apply attempts_returns|].
    intros ok w1 (HK1 & Hok & Hfail & Hoth & Hle).
    assert (HL1 : Live (Filename msg) a t w1) by apply HK1.
    (* what the rest of the loop gives, from [w1] *)
    assert (Hrest : completed w1 t p = true →
      returns (fetchAll msg rest w1) (fetchAllPost msg (p :: rest) a t w)).
    { intros Hdone. eapply returns_mono; [by apply IH|].
      intros ok2 w2 (HK2 & Hall & Hsome & Hle2 & Hout).
      split; [eapply Keeps_trans; eauto|]. split_and!.
      - intros Hk q [->|Hq]%elem_of_cons; [|by apply Hall].
        destruct HK2 as (_ & _ & _ & _ & _ & _ & Hmono). by apply Hmono.
      - intros Hk. destruct (Hsome Hk) as (q & Hq & Hc & Hn).
        exists q. split; [by apply elem_of_cons; right|]. split; [done|].
        rewrite Hn, Hoth; [done|]. intros ->. done.
      - intros q. destruct (decide (q ∈ rest)) as [Hin|Hout'].
        + specialize (Hle2 q). rewrite Hoth in Hle2; [exact Hle2|]. intros ->. done.
        + rewrite Hout by done. destruct (decide (q = p)) as [->|Hne].
          * exact Hle.
          * rewrite Hoth by done. lia.
      - intros q Hq. apply not_elem_of_cons in Hq as [Hne Hq].
        by rewrite Hout, Hoth. }
    destruct ok.
    + apply Hrest. by apply Hok.
    + destruct (Hfail eq_refl) as [Hc Hn].
      destruct HL1 as (Hreg & (t1 & Hobj & HD & HP) & Hmap).
      mstep (lookupTransfer_eq (Filename msg) w1). rewrite Hreg.
      mstep (deref_Some _ _ _ Hobj). mstep (partsGet_completed t1 p w1).
      assert (Hc1 : completed w1 t1 p = completed w1 t p)
        by (unfold completed; by rewrite HP).
      rewrite Hc1. destruct (completed w1 t p) eqn:Hdone.
      * by apply Hrest.
      * simpl. split; [exact HK1|]. split_and!; try done.
        -- intros _. exists p. split; [apply elem_of_cons; by left|]. done.
        -- intros q. destruct (decide (q = p)) as [->|Hne]; [exact Hle|].
           rewrite Hoth by done. lia.
        -- intros q Hq. apply not_elem_of_cons in Hq as [Hne Hq]. by apply Hoth.
Qed.

(** ** The part fetcher: giving up *)

(** [getParts] is its fetch phase, then the assembly when the loop ended,
    then the deferred calls. *)
Lemma getParts_fetchPhase (msg : Message) (w : World) :
  Part msg ≠ 0 →
  getParts msg w
  = (ok ← fetchPhase msg;
     (if ok : bool then assemble msg else mret tt);;
     release;;
     destroyTempTransfer (Filename msg)) w.
Proof.
  intros Hp. unfold getParts, fetchPhase, defer. rewrite decide_False by done.
  unfold mbind, M_bind, mret, M_ret.
  destruct (shuffle _ _ w) as [parts w1| | |]; try reflexivity.
  destruct (acquire w1) as [[] w2| | |]; try reflexivity.
  destruct (setField _ _ w2) as [[] w3| | |]; try reflexivity.
  destruct (fetchAll msg parts w3) as [ok w4| | |]; try reflexivity.
  destruct ((if ok then assemble msg else λ w5, Done tt w5) w4) as [[] w5| | |];
    try reflexivity.
  destruct (release w5) as [[] w6| | |]; try reflexivity.
  destruct (destroyTempTransfer (Filename msg) w6) as [[] w7| | |]; reflexivity.
Qed.

Lemma elem_of_parts (N : Z) (parts : list Z) (p : Z) :
  parts ≡ₚ Z.of_nat <$> seq 0 (Z.to_nat N) →
  p ∈ parts ↔ 0 ≤ p < N.
Proof.
  intros ->. rewrite list_elem_of_fmap. split.
  - intros (n & -> & Hn). apply elem_of_seq in Hn. lia.
  - intros Hp. exists (Z.to_nat p). split; [lia|]. apply elem_of_seq. lia.
Qed.

Lemma NoDup_parts (N : Z) (parts : list Z) :
  parts ≡ₚ Z.of_nat <$> seq 0 (Z.to_nat N) → NoDup parts.
Proof.
  intros ->. apply NoDup_fmap; [apply _|]. apply NoDup_seq.
Qed.

(** With a live Transfer and a free slot the fetch phase always returns. *)
Lemma fetchPhase_returns (msg : Message) (a : ptr) (t : Transfer) (w : World) :
  Live (Filename msg) a t w →
  (queue w < QUEUE_LEN)%nat →
  returns (fetchPhase msg w) (fetchPhasePost msg a t w).
Proof.
  intros HL Hq. destruct HL as (Hreg & (t0 & Hobj & HD & HP) & Hmap).
  unfold fetchPhase.
  destruct (shuffle_returns (Z.to_nat (Part msg - 1))
              (Z.of_nat <$> seq 0 (Z.to_nat (Part msg))) w) as (parts & Esh & Hperm).
  { rewrite length_fmap, length_seq. lia. }
  mstep Esh.
  set (w1 := set_rand (drop (Z.to_nat (Part msg - 1))) w).
  assert (Eacq : acquire w1 = Done tt (set_queue S w1)).
  { unfold acquire. by rewrite decide_True. }
  mstep Eacq.
  set (w3 := set_objs <[a := withQueued false t0]> (set_queue S w1)).
  assert (Eset : setField (Filename msg) (withQueued false) (set_queue S w1) = Done tt w3).
  { unfold setField. mstep (lookupTransfer_eq (Filename msg) (set_queue S w1)).
    simpl transfers. rewrite Hreg.
    assert (Ho : objs (set_queue S w1) !! a = Some t0) by exact Hobj.
    by mstep (deref_Some _ _ _ Ho). }
  mstep Eset.
  assert (HL3 : Live (Filename msg) a t w3).
  { split_and!; [exact Hreg| |exact Hmap].
    exists (withQueued false t0). split_and!; [apply lookup_insert_eq|done|done]. }
  eapply returns_mono; [apply fetchAll_returns; [by eapply NoDup_parts|exact HL3]|].
  intros ok w4 (HK & Hall & Hsome & Hle & _).
  destruct HK as (HL4 & Hb & _ & Hqu & Htr & Hfs & Hmono).
  split_and!; try done.
  - intros Hk p Hp. apply Hall; [done|]. by eapply elem_of_parts.
  - intros Hk. destruct (Hsome Hk) as (p & Hin & Hc & Hn).
    exists p. split; [by eapply elem_of_parts|]. done.
Qed.

Lemma getParts_abort (msg : Message) (a : ptr) (t : Transfer) (w w1 : World) :
  Part msg ≠ 0 →
  fetchPhase msg w = Done false w1 →
  Live (Filename msg) a t w1 → (0 < queue w1)%nat →
  getParts msg w
  = Done tt (set_transfers (delete (Filename msg))
               (set_fs (os.RemoveAll (Dir t)) (set_queue pred w1))).
Proof.
  intros Hp Hph (Hreg & (t1 & Hobj & HD & HP) & Hmap) Hq.
  rewrite getParts_fetchPhase by done. mstep Hph. rewrite bind_ret.
  assert (Erel : release w1 = Done tt (set_queue pred w1)).
  { unfold release. by rewrite decide_True. }
  mstep Erel. rewrite <- HD.
  by apply (destroyTempTransfer_registered (Filename msg) a t1).
Qed.

Lemma copyParts_trace (msg : Message) (t : Transfer) (tfile : option string)
    (n : nat) (i : Z) (w w' : World) (b : bool) :
  copyParts msg t tfile n i w = Done b w' → trace w' = trace w.
Proof.
  revert i w. induction n as [|n IH]; intros i w E.
  - cbv in E. by (cbv [mret M_ret] in *; simplify_eq).
  - cbn [copyParts] in E. rewrite bind_gets in E.
    destruct (fs w !! partFile (Dir t) (Filename msg) i) as [nd|]; [|by (cbv [mret M_ret] in *; simplify_eq)].
    destruct tfile as [tname|]; [destruct nd as [d pm|pm]|];
      rewrite ?bind_modify, ?bind_ret in E; apply IH in E; exact E.
Qed.

(** The assembly sends nothing: it leaves the trace alone or adds the
    sleep before the rename. *)
Lemma assemble_trace (msg : Message) (w w' : World) :
  assemble msg w = Done tt w' →
  trace w' = trace w ∨ trace w' = (trace w ++ [EvSleep 500])%list.
Proof.
  unfold assemble. rewrite (bind_Done _ _ _ _ _ (lookupTransfer_eq _ w)).
  intros E.
  apply bind_Done_inv in E as (t & w0 & Ed & E). apply deref_Done_inv in Ed as ->.
  apply bind_Done_inv in E as (tfile & w1 & Et & E).
  assert (Ht1 : trace w1 = trace w).
  { unfold TempFile, TempNode in Et. rewrite bind_gets, bind_modify in Et.
    apply bind_Done_inv in Et as (ok & w2 & Ef & Et).
    apply fsTry_trace in Ef. apply ret_Done_inv in Et as [_ <-]. exact Ef. }
  apply bind_Done_inv in E as (ok & w2 & Ec & E).
  apply copyParts_trace in Ec.
  destruct ok; [|left; apply ret_Done_inv in E as [_ <-]; congruence].
  destruct tfile as [tname|]; [|done].
  rewrite bind_gets in E.
  apply bind_Done_inv in E as (ok & w3 & Em & E). apply fsTry_trace in Em.
  destruct ok; [|left; apply ret_Done_inv in E as [_ <-]; congruence].
  rewrite (bind_Done _ _ _ _ _ (Sleep_eq 500 w3)) in E.
  apply bind_Done_inv in E as (ok & w4 & Er & E). apply fsTry_trace in Er.
  apply bind_Done_inv in E as (ok' & w5 & Eh & E). apply fsTry_trace in Eh.
  apply ret_Done_inv in E as [_ <-]. right. simpl in Er. congruence.
Qed.

(** A whole run of the part fetcher that returns has sent at most
    [MAX_ATTEMPTS] XFER requests for any part. *)
Lemma getParts_xfer_bound (msg : Message) (a : ptr) (t : Transfer) (w w' : World) :
  Part msg ≠ 0 →
  Live (Filename msg) a t w →
  (queue w < QUEUE_LEN)%nat →
  getParts msg w = Done tt w' →
  ∀ p, (xferCount (Filename msg) p (trace w')
          ≤ xferCount (Filename msg) p (trace w) + MAX_ATTEMPTS)%nat.
Proof.
  intros Hp HL Hq E p.
  destruct (returns_inv _ _ (fetchPhase_returns msg a t w HL Hq))
    as (ok & w1 & Eph & _ & _ & _ & _ & _ & _ & _ & _ & Hle).
  rewrite getParts_fetchPhase in E by done.
  rewrite (bind_Done _ _ _ _ _ Eph) in E.
  assert (Hcnt : xferCount (Filename msg) p (trace w')
                 = xferCount (Filename msg) p (trace w1)); [|rewrite Hcnt; apply Hle].
  apply bind_Done_inv in E as ([] & w2 & Ea & E).
  assert (H2 : xferCount (Filename msg) p (trace w2)
               = xferCount (Filename msg) p (trace w1)).
  { destruct ok; [|by apply ret_Done_inv in Ea as [_ <-]].
    destruct (assemble_trace _ _ _ Ea) as [->| ->]; [done|apply xferCount_sleep]. }
  rewrite <- H2.
  apply bind_Done_inv in E as ([] & w3 & Erel & E).
  assert (trace w3 = trace w2) as <-.
  { unfold release in Erel. destruct (decide (0 < queue w2)%nat); by simplify_eq. }
  assert (trace w' = trace w3) as ->; [|done].
  unfold destroyTempTransfer in E. rewrite (bind_Done _ _ _ _ _ (lookupTransfer_eq _ w3)) in E.
  destruct (transfers w3 !! Filename msg) as [a3|]; [|by apply ret_Done_inv in E as [_ <-]].
  apply bind_Done_inv in E as (t3 & w4 & Ed & E). apply deref_Done_inv in Ed as ->.
  rewrite bind_modify in E. cbv [modify] in E. by simplify_eq.
Qed.

(** C4. For a live Transfer of a file with parts and a free admission
    slot, the fetch phase of [getParts] returns, having sent at most
    [MAX_ATTEMPTS] (3) XFER requests for any part, and a whole run of
    [getParts] that returns has sent no more either. The loop is left early
    exactly when some part is not in the completed-parts set, and then that
    part was asked for 3 times. If a part of the file is not in the
    completed-parts set after the fetch phase, [getParts] returns without
    assembling: it sends nothing more, the disk is what it was before the
    call minus the scratch directory (so nothing is placed at the target
    path), nothing is left inside the scratch directory, and the Transfer
    is gone from the transfers map. *)
Theorem getParts_abandons_after_MAX_ATTEMPTS (msg : Message) (a : ptr)
    (t : Transfer) (w : World) :
  Part msg ≠ 0 →
  Live (Filename msg) a t w →
  (queue w < QUEUE_LEN)%nat →
  ∃ ok w1, fetchPhase msg w = Done ok w1
    ∧ (∀ p, (xferCount (Filename msg) p (trace w1)
              ≤ xferCount (Filename msg) p (trace w) + 3)%nat)
    ∧ (∀ w' p, getParts msg w = Done tt w' →
         (xferCount (Filename msg) p (trace w')
            ≤ xferCount (Filename msg) p (trace w) + 3)%nat)
    ∧ (ok = false ↔ ∃ p, 0 ≤ p < Part msg ∧ completed w1 t p = false)
    ∧ (ok = false → ∃ p, 0 ≤ p < Part msg ∧ completed w1 t p = false
         ∧ xferCount (Filename msg) p (trace w1)
           = (xferCount (Filename msg) p (trace w) + 3)%nat)
    ∧ ((∃ p, 0 ≤ p < Part msg ∧ completed w1 t p = false) →
       ∃ w', getParts msg w = Done tt w'
         ∧ trace w' = trace w1
         ∧ fs w' = os.RemoveAll (Dir t) (fs w)
         ∧ (let target := filepath.Join (base w) (Filename msg) in
            fs w' !! target = None ∨ fs w' !! target = fs w !! target)
         ∧ (∀ q, os.inside (Dir t) q = true → fs w' !! q = None)
         ∧ transfers w' = delete (Filename msg) (transfers w)
         ∧ transferOf w' (Filename msg) = None).
Proof.
  intros Hp HL Hq.
  destruct (returns_inv _ _ (fetchPhase_returns msg a t w HL Hq))
    as (ok & w1 & E & HL1 & Hb & Htr & Hqu & Hfs & Hmono & Hall & Hsome & Hle).
  exists ok, w1. split; [exact E|]. split; [exact Hle|].
  split; [intros w' p Eg; by apply (getParts_xfer_bound msg a t w w')|].
  assert (Hiff : ok = false ↔ ∃ p, 0 ≤ p < Part msg ∧ completed w1 t p = false).
  { split.
    - intros Hk. destruct (Hsome Hk) as (p & ? & ? & ?). eauto.
    - intros (p & Hr & Hc). destruct ok; [|done].
      rewrite (Hall eq_refl p Hr) in Hc. done. }
  split; [exact Hiff|]. split; [exact Hsome|].
  intros Hex. apply Hiff in Hex. subst ok.
  eexists. split; [apply (getParts_abort msg a t w w1); [done..|lia]|].
  simpl. split_and!.
  - reflexivity.
  - exact Hfs.
  - destruct (os.inside (Dir t) (filepath.Join (base w) (Filename msg))) eqn:Hin.
    + left. by apply RemoveAll_inside.
    + right. rewrite Hfs. by apply RemoveAll_outside.
  - intros q Hin. by apply RemoveAll_inside.
  - by rewrite Htr.
  - unfold transferOf. simpl. by rewrite lookup_delete_eq.
Qed.

(** Node [A] is silent: every wait for a part times out. *)
Lemma getParts_abandons_after_MAX_ATTEMPTS_witness :
  ∃ w', getParts Scenario.ack Scenario.w0 = Done tt w'
    ∧ fs w' !! "/srv/hello.txt" = None
    ∧ fs w' !! "/srv/transfer_1" = None
    ∧ transfers w' !! "hello.txt" = None
    ∧ xferCount "hello.txt" 1 (trace w') = 3%nat.
Proof.
  destruct (getParts_abandons_after_MAX_ATTEMPTS Scenario.ack 1%positive
              Scenario.t0 Scenario.w0)
    as (ok & w1 & E & _ & _ & _ & _ & Habort).
  { discriminate. }
  { split_and!; [reflexivity|by exists Scenario.t0|by eexists]. }
  { unfold QUEUE_LEN. simpl. lia. }
  vm_compute in E. injection E as <- <-.
  destruct Habort as (w' & E' & Htr & Hfs & _ & Hin & Htrans & _).
  { exists 1. split; [simpl; lia|]. compute_done. }
  exists w'. split; [exact E'|]. split_and!.
  - rewrite Hfs. compute_done.
  - apply Hin. compute_done.
  - rewrite Htrans. compute_done.
  - rewrite Htr. compute_done.
Defined.

(** ** The part fetcher: the assembly *)


Lemma TempFile_created (dir pre : string) (w : World) (fs1 : FS) :
  let tname := filepath.Join dir (pre +:+ hd "" (names w)) in
  os.createExcl tname (File [] 384%N) (fs w) = Some fs1 →
  TempFile dir pre w
  = Done (Some tname) (set_fs (λ _, <[tname := File [] 384%N]> (fs w))
                         (set_names (drop 1) w))
  ∧ fs w !! tname = None.
Proof.
  intros tname Hc. unfold TempFile, TempNode. rewrite bind_gets, bind_modify.
  fold tname.
  assert (Hfs1 : fs1 = <[tname := File [] 384%N]> (fs w) ∧ fs w !! tname = None).
  { unfold os.createExcl in Hc. destruct (fs w !! tname); [done|].
    destruct (os.isFolder (fs w) (filepath.Dir tname)); by simplify_eq. }
  destruct Hfs1 as [-> Hnone]. split; [|done].
  assert (Hc' : os.createExcl tname (File [] 384%N) (fs (set_names (drop 1) w))
                = Some (<[tname := File [] 384%N]> (fs w))) by exact Hc.
  mstep (fsTry_Some _ _ _ Hc'). by destruct w.
Qed.



(** ** The part fetcher: from the responses to the file *)














(** ** [Status] *)

Lemma insertAll_lookup (l : list (Z * bool)) (m0 : gmap Z bool) (k : Z) :
  NoDup l.*1 →
  insertAll m0 l !! k
  = match (list_to_map l : gmap Z bool) !! k with
    | Some v => Some v
    | None => m0 !! k
    end.
Proof.
  revert m0. induction l as [|[k0 v0] l IH]; intros m0 Hnd.
  - simpl. by rewrite lookup_empty.
  - apply NoDup_cons in Hnd as [Hk0 Hnd]. cbn [insertAll foldl].
    change (foldl _ ?m l) with (insertAll m l). rewrite IH by done.
    cbn [list_to_map foldr]. simpl.
    destruct (decide (k = k0)) as [->|Hne].
    + rewrite (not_elem_of_list_to_map_1 _ _ Hk0). by rewrite !lookup_insert_eq.
    + by rewrite !lookup_insert_ne.
Qed.

Lemma insertAll_map_to_list (m : gmap Z bool) : insertAll ∅ (map_to_list m) = m.
Proof.
  apply map_eq. intros k.
  rewrite insertAll_lookup by apply NoDup_fst_map_to_list.
  rewrite list_to_map_to_list, lookup_empty. by destruct (m !! k).
Qed.

Lemma forEach_partsSet (t : Transfer) (l : list (Z * bool)) (m0 : gmap Z bool)
    (w : World) :
  pmaps w !! Parts t = Some m0 →
  forEach l (λ kv, partsSet t kv.1 kv.2) w
  = Done tt (set_pmaps (λ _, <[Parts t := insertAll m0 l]> (pmaps w)) w).
Proof.
  revert m0 w. induction l as [|[k v] l IH]; intros m0 w Hm.
  - simpl. rewrite insert_id by done. by destruct w.
  - cbn [forEach]. mstep (partsSet_Some t k v m0 w Hm).
    rewrite (IH (<[k := v]> m0)) by (simpl; apply lookup_insert_eq).
    f_equal. destruct w; simpl. unfold set_pmaps; simpl. f_equal.
    by rewrite insert_insert_eq.
Qed.

(** The copy of one record. *)
Lemma copyTransfer_copies (a : ptr) (t : Transfer) (w : World) :
  objs w !! a = Some t →
  let r := fresh (dom (objs w)) in
  let mp := fresh (dom (pmaps w)) in
  copyTransfer a w
  = Done r (set_pmaps (λ _, <[mp := default ∅ (pmaps w !! Parts t)]> (pmaps w))
              (set_objs (λ _, <[r := withParts mp t]> (objs w)) w)).
Proof.
  intros Hobj r mp. unfold copyTransfer.
  mstep (deref_Some _ _ _ Hobj).
  unfold newTransfer. rewrite bind_assoc, bind_gets, bind_assoc, bind_modify, bind_ret.
  fold r.
  unfold makeMap. rewrite bind_assoc, bind_gets, bind_assoc, bind_modify, bind_ret.
  change (fresh (dom (pmaps (set_objs <[r:=t]> w)))) with mp.
  rewrite bind_modify, bind_gets.
  assert (Hmp : pmaps w !! mp = None).
  { apply not_elem_of_dom. apply is_fresh. }
  assert (Hsrc : default ∅ (pmaps (set_objs <[r:=withParts mp t]>
                   (set_pmaps <[mp:=∅]> (set_objs <[r:=t]> w))) !! Parts t)
                 = default ∅ (pmaps w !! Parts t)).
  { simpl. destruct (decide (Parts t = mp)) as [->|Hne].
    - by rewrite lookup_insert_eq, Hmp.
    - by rewrite lookup_insert_ne. }
  rewrite Hsrc.
  set (src := default ∅ (pmaps w !! Parts t)).
  set (w3 := set_objs _ (set_pmaps _ (set_objs _ w))).
  assert (H3 : pmaps w3 !! Parts (withParts mp t) = Some ∅).
  { subst w3. simpl. apply lookup_insert_eq. }
  mstep (forEach_partsSet (withParts mp t) (map_to_list src) ∅ w3 H3).
  rewrite insertAll_map_to_list. subst w3. destruct w; simpl.
  unfold set_pmaps, set_objs; simpl. f_equal; f_equal; by rewrite insert_insert_eq.
Qed.

Lemma extends_refl w : extends w w.
Proof. by split_and!. Qed.

Lemma extends_trans w1 w2 w3 : extends w1 w2 → extends w2 w3 → extends w1 w3.
Proof.
  intros (T1 & O1 & P1 & F1 & R1 & Q1) (T2 & O2 & P2 & F2 & R2 & Q2).
  split_and!; try congruence; eauto.
Qed.

Lemma Forall2_impl_elem {A B} (P Q : A → B → Prop) (l : list A) (k : list B) :
  Forall2 P l k → (∀ x y, x ∈ l → P x y → Q x y) → Forall2 Q l k.
Proof.
  induction 1 as [|x y l k Hxy _ IH]; intros Himp; constructor.
  - apply Himp; [apply elem_of_cons; by left|done].
  - apply IH. intros x' y' Hin. apply Himp. apply elem_of_cons. by right.
Qed.

(** The loop of [Status] over the registered transfers. *)
Lemma copyAll_copies (ts : list (string * ptr)) (res0 : list ptr) (w : World) :
  (∀ fa, fa ∈ ts → ∃ t, objs w !! fa.2 = Some t ∧ is_Some (pmaps w !! Parts t)) →
  ∃ res w', copyAll ts res0 w = Done (res0 ++ res)%list w'
    ∧ extends w w'
    ∧ Forall2 (λ fa r, copyOf w w' fa.2 r) ts res.
Proof.
  revert res0 w. induction ts as [|[f a] ts IH]; intros res0 w Hall.
  - exists [], w. rewrite app_nil_r. split; [done|]. split; [apply extends_refl|constructor].
  - destruct (Hall (f, a)) as (t & Hobj & Hmap); [apply elem_of_cons; by left|].
    simpl in Hobj.
    pose proof (copyTransfer_copies a t w Hobj) as Ecp. cbv zeta in Ecp.
    set (r := fresh (dom (objs w))) in *. set (mp := fresh (dom (pmaps w))) in *.
    set (w1 := set_pmaps _ (set_objs _ w)) in Ecp.
    assert (Hr : objs w !! r = None) by (apply not_elem_of_dom, is_fresh).
    assert (Hmp : pmaps w !! mp = None) by (apply not_elem_of_dom, is_fresh).
    assert (Hext1 : extends w w1).
    { subst w1. split_and!; try done.
      - intros a0 t0 H0. simpl. rewrite lookup_insert_ne; [done|]. congruence.
      - intros a0 m0 H0. simpl. rewrite lookup_insert_ne; [done|]. congruence. }
    destruct (IH (res0 ++ [r])%list w1) as (res & w' & E & Hext & Hcopies).
    { intros fa Hfa. destruct (Hall fa) as (t0 & Ho & [m0 Hm]); [apply elem_of_cons; by right|].
      exists t0. split; [by apply Hext1|]. exists m0. by apply Hext1. }
    exists (r :: res), w'. split; [|split].
    + cbn [copyAll]. mstep Ecp. rewrite E. f_equal. by rewrite <- app_assoc.
    + by eapply extends_trans.
    + constructor.
      * split; [by apply not_elem_of_dom|]. exists t, (withParts mp t).
        destruct Hext as (_ & Ho & Hp & _).
        split_and!; try done.
        -- apply Ho. subst w1. simpl. apply lookup_insert_eq.
        -- simpl. by apply not_elem_of_dom.
        -- simpl. apply Hp. subst w1. simpl. apply lookup_insert_eq.
      * eapply Forall2_impl_elem; [exact Hcopies|].
        intros [f' a'] r' Hin. simpl.
        intros (Hr' & t1 & t2 & Ho1 & Ho2 & Ht2 & Hp2 & Hm2).
        destruct (Hall (f', a')) as (t0 & Ho0 & [m0 Hm0]); [apply elem_of_cons; by right|].
        simpl in Ho0.
        assert (t1 = t0) as -> by (apply Hext1 in Ho0; congruence).
        split.
        { intros Hd. apply Hr'. apply elem_of_dom in Hd as [x Hx].
          apply elem_of_dom. exists x. by apply Hext1. }
        exists t0, t2. split_and!; try done.
        -- intros Hd. apply Hp2. apply elem_of_dom in Hd as [x Hx].
           apply elem_of_dom. exists x. by apply Hext1.
        -- rewrite Hm2. f_equal. rewrite Hm0. apply Hext1 in Hm0. by rewrite Hm0.
Qed.

(** C9. On a world whose registered Transfers are allocated, [Status]
    returns one record per registered Transfer, each a copy in a new
    record with a new map of the same contents; the engine's view of its
    Transfers is as before; and whatever a caller then writes into a
    returned record, or into the map of one, the transfers map and the
    engine's view of every Transfer stay as they were. *)
Theorem Status_returns_deep_copies (w : World) :
  allocated w →
  ∃ res w', Status w = Done res w'
    ∧ length res = size (transfers w)
    ∧ Forall2 (λ fa r, copyOf w w' fa.2 r) (map_to_list (transfers w)) res
    ∧ transfers w' = transfers w
    ∧ (∀ f, snapshot w' f = snapshot w f)
    ∧ (∀ r t2 t' m', r ∈ res → objs w' !! r = Some t2 →
         transfers (mutate r t' (Parts t2) m' w') = transfers w
         ∧ ∀ f, snapshot (mutate r t' (Parts t2) m' w') f = snapshot w f).
Proof.
  intros Halloc.
  destruct (copyAll_copies (map_to_list (transfers w)) [] w) as (res & w' & E & Hext & Hc).
  { intros [f a] Hfa. apply elem_of_map_to_list in Hfa. by apply (Halloc f a). }
  exists res, w'. split; [exact E|].
  destruct Hext as (Htr & Ho & Hp & _).
  split; [|split; [exact Hc|split; [exact Htr|split]]].
  - rewrite <- (Forall2_length _ _ _ Hc). apply length_map_to_list.
  - intros f. unfold snapshot. rewrite Htr.
    destruct (transfers w !! f) as [a|] eqn:Hf; [|done]. simpl.
    destruct (Halloc f a Hf) as (t & Hot & [m Hm]).
    rewrite (Ho _ _ Hot), Hot. simpl. by rewrite (Hp _ _ Hm), Hm.
  - intros r t2 t' m' Hr Hr2. split; [exact Htr|].
    intros f. unfold snapshot, mutate. simpl. rewrite Htr.
    destruct (transfers w !! f) as [a|] eqn:Hf; [|done]. simpl.
    destruct (Halloc f a Hf) as (t & Hot & [m Hm]).
    apply list_elem_of_lookup in Hr as [i Hi].
    destruct (Forall2_lookup_r _ _ _ _ _ Hc Hi) as ([f0 a0] & _ & Hcopy).
    destruct Hcopy as (Hfresh & t0 & t2' & _ & Hr2' & _ & Hpfresh & _).
    assert (t2' = t2) as -> by congruence.
    assert (a ≠ r).
    { intros ->. apply Hfresh. apply elem_of_dom. eauto. }
    rewrite lookup_insert_ne by done. rewrite (Ho _ _ Hot), Hot. simpl.
    assert (Parts t ≠ Parts t2).
    { intros Heq. apply Hpfresh. rewrite <- Heq. apply elem_of_dom. eauto. }
    rewrite lookup_insert_ne by done. by rewrite (Hp _ _ Hm), Hm.
Qed.

Lemma Status_returns_deep_copies_witness :
  ∃ res w', Status Scenario.w0 = Done res w'
    ∧ length res = 1%nat
    ∧ ∀ r t2, r ∈ res → objs w' !! r = Some t2 →
        snapshot (mutate r (withInflight 99 t2) (Parts t2) {[5 := true]} w') "hello.txt"
        = Some (Scenario.t0, ∅).
Proof.
  destruct (Status_returns_deep_copies Scenario.w0)
    as (res & w' & E & Hlen & _ & _ & _ & Hmut).
  { intros f a Hf. exists Scenario.t0.
    change (transfers Scenario.w0) with ({[Scenario.f := 1%positive]} : gmap string ptr) in Hf.
    apply lookup_singleton_Some in Hf as [<- <-].
    split; [compute_done|]. exists ∅. compute_done. }
  exists res, w'. split; [exact E|]. split; [rewrite Hlen; compute_done|].
  intros r t2 Hr Ht2.
  destruct (Hmut r t2 (withInflight 99 t2) {[5 := true]} Hr Ht2) as [_ Hs].
  rewrite Hs. compute_done.
Defined.

(** * Further properties of the engine *)

(** ** The shuffle and [xfer] *)

(** X1. The shuffle of [Get] and [getParts], started at an index inside
    the list, returns a permutation of the list whatever the random source
    draws, and consumes one draw per step. In particular the order in which
    [getParts] visits the parts holds every part 0 to N-1 once. *)
Theorem shuffle_permutes {A} `{Inhabited A} (i : nat) (l : list A) (w : World) :
  (i < length l)%nat →
  ∃ l', shuffle i l w = Done l' (set_rand (drop i) w)
    ∧ l' ≡ₚ l ∧ length l' = length l
    ∧ (NoDup l → NoDup l').
Proof.
  intros Hi. destruct (shuffle_returns i l w) as (l' & E & Hp); [by left|].
  exists l'. split_and!; [done|done|by rewrite Hp|by rewrite Hp].
Qed.

Lemma shuffle_permutes_witness :
  ∃ l', shuffle 2 [0; 1; 2] (set_rand (λ _, [7; 4]) Scenario.w0)
        = Done l' (set_rand (λ _, []) Scenario.w0)
    ∧ l' ≡ₚ [0; 1; 2].
Proof.
  destruct (shuffle_permutes 2 [0; 1; 2] (set_rand (λ _, [7; 4]) Scenario.w0))
    as (l' & E & Hp & _); [simpl; lia|].
  exists l'. split; [exact E|exact Hp].
Defined.

(** X2. [xfer] always returns, after one XFER request to the node of the
    INFO answer, carrying the filename, the part and a fresh transfer id;
    the id is released on every path. A failed send gives the transport
    error without waiting for a response; otherwise one wait is made, and
    an ACK gives its payload, a NACK the NACK error, silence the timeout
    error. The transfers and the disk are not touched. *)
Theorem xfer_outcomes (msg : Message) (part : Z) (w : World) :
  let tid := hd 0 (tids w) in
  ∃ r w', xfer msg part w = Done r w'
    ∧ trace w' = (trace w ++ [EvSend [From msg]
                   (request (name w) TYPE_XFER (Filename msg) tid part)])%list
    ∧ (tid ∉ TIDs w')
    ∧ (hd (Some []) (sends w) = None → r = inl ErrTransport ∧ inbox w' = inbox w)
    ∧ (is_Some (hd (Some []) (sends w)) →
       inbox w' = drop 1 (inbox w)
       ∧ match hd None (inbox w) with
         | Some resp => r = if ACK resp then inr (Data resp) else inl ErrNACK
         | None => r = inl ErrTimeout
         end)
    ∧ transfers w' = transfers w ∧ objs w' = objs w ∧ pmaps w' = pmaps w
    ∧ fs w' = fs w ∧ queue w' = queue w.
Proof.
  intros tid. subst tid.
  destruct w as [b nm h hs ts os ps TI hh q sp fs0 tr sn ib rn td ns].
  unfold xfer, defer, newTID, NodeSet, recv, unregisterTID, emit.
  cbv [mbind M_bind mret M_ret gets modify]. simpl.
  assert (Hrel : ∀ x : Z, x ∉ ({[x]} ∪ TI) ∖ {[x]}).
  { intros x [_ Hn]%elem_of_difference. apply Hn. by apply elem_of_singleton. }
  destruct sn as [|[rs|] sn]; simpl;
    [destruct ib as [|[resp|] ib]; simpl; [|destruct (ACK resp)|]
    |destruct ib as [|[resp|] ib]; simpl; [|destruct (ACK resp)|]
    |];
    eexists _, _; (split; [reflexivity|]); simpl;
    split_and!;
    first [ done | apply Hrel | by intros ? | (intros _; by split) | by intros [? ?] ].
Qed.

(** ** More on the snoop cache *)

(** The guard of [MITM], for an ACK response with a payload. *)
Lemma MITM_guard_false (m : Message) :
  Type_ m = TYPE_RESPONSE → ACK m = true → Data m ≠ [] →
  negb (bool_decide (Type_ m = TYPE_RESPONSE)) || negb (ACK m)
  || bool_decide (length (Data m) = 0%nat) = false.
Proof.
  intros Hty Hack Hdata. rewrite bool_decide_eq_true_2 by done. rewrite Hack. simpl.
  apply bool_decide_eq_false_2. by destruct (Data m).
Qed.

(** What [MITM] does when it caches a part. *)
Lemma MITM_caches_eq (m : Message) (w : World) (a : ptr) (t : Transfer)
    (dn : gmap Z bool) (fs' : FS) :
  Type_ m = TYPE_RESPONSE → ACK m = true → Data m ≠ [] →
  transfers w !! Filename m = Some a → objs w !! a = Some t →
  pmaps w !! Parts t = Some dn →
  Inflight t ≠ Part m → completed w t (Part m) = false →
  os.WriteFile (partFile (Dir t) (TFilename t) (Part m)) (Data m) 436%N (fs w)
    = Some fs' →
  MITM m w
  = Done tt (set_pmaps <[Parts t := <[Part m := true]> dn]> (set_fs (λ _, fs') w)).
Proof.
  intros Hty Hack Hdata Ha Ht Hmap Hfl Hnot Hwr.
  unfold MITM. rewrite MITM_guard_false by done.
  mstep (lookupTransfer_eq (Filename m) w). rewrite Ha.
  mstep (deref_Some _ _ _ Ht). rewrite decide_False by done.
  mstep (partsGet_completed t (Part m) w). rewrite Hnot.
  mstep (fsTry_Some _ _ _ Hwr).
  by rewrite (partsSet_Some _ _ _ dn).
Qed.

(** The cases of a [MITM] that returns: it left the world alone, or it
    wrote a part file and marked the part. *)
Lemma MITM_Done_inv (m : Message) (w w' : World) :
  MITM m w = Done tt w' →
  w' = w
  ∨ ∃ a t dn fs',
      transfers w !! Filename m = Some a ∧ objs w !! a = Some t
      ∧ pmaps w !! Parts t = Some dn
      ∧ Inflight t ≠ Part m
      ∧ os.WriteFile (partFile (Dir t) (TFilename t) (Part m)) (Data m) 436%N (fs w)
        = Some fs'
      ∧ negb (bool_decide (Type_ m = TYPE_RESPONSE)) || negb (ACK m)
        || bool_decide (length (Data m) = 0%nat) = false
      ∧ w' = set_pmaps <[Parts t := <[Part m := true]> dn]> (set_fs (λ _, fs') w).
Proof.
  unfold MITM.
  destruct (negb (bool_decide (Type_ m = TYPE_RESPONSE)) || negb (ACK m)
            || bool_decide (length (Data m) = 0%nat)) eqn:Hg.
  { intros [_ <-]%ret_Done_inv. by left. }
  rewrite (bind_Done _ _ _ _ _ (lookupTransfer_eq (Filename m) w)).
  destruct (transfers w !! Filename m) as [a|] eqn:Ha;
    [|intros [_ <-]%ret_Done_inv; by left].
  intros E. apply bind_Done_inv in E as (t & w0 & Ed & E).
  assert (w0 = w) as -> by (by apply deref_Done_inv in Ed).
  assert (Ht : objs w !! a = Some t).
  { unfold deref in Ed. rewrite bind_gets in Ed.
    destruct (objs w !! a); [|done]. by apply ret_Done_inv in Ed as [-> _]. }
  destruct (decide (Inflight t = Part m)) as [|Hfl];
    [apply ret_Done_inv in E as [_ <-]; by left|].
  rewrite (bind_Done _ _ _ _ _ (partsGet_completed t (Part m) w)) in E.
  destruct (completed w t (Part m)) eqn:Hc;
    [apply ret_Done_inv in E as [_ <-]; by left|].
  destruct (os.WriteFile (partFile (Dir t) (TFilename t) (Part m)) (Data m) 436%N (fs w))
    as [fs'|] eqn:Hw.
  - rewrite (bind_Done _ _ _ _ _ (fsTry_Some _ _ _ Hw)) in E.
    unfold partsSet in E. rewrite bind_gets in E. simpl in E.
    destruct (pmaps w !! Parts t) as [dn|] eqn:Hm; [|done].
    right. exists a, t, dn, fs'. split_and!; try done.
    cbv [modify] in E. by simplify_eq.
  - rewrite (bind_Done _ _ _ _ _ (fsTry_None _ _ Hw)) in E.
    apply ret_Done_inv in E as [_ <-]. by left.
Qed.

(** [MITM] returns when every registered Transfer has its record and its
    map. *)
Lemma MITM_returns (m : Message) (w : World) :
  allocated w → ∃ w', MITM m w = Done tt w'.
Proof.
  intros Hal. unfold MITM.
  destruct (negb (bool_decide (Type_ m = TYPE_RESPONSE)) || negb (ACK m)
            || bool_decide (length (Data m) = 0%nat)); [by eexists|].
  mstep (lookupTransfer_eq (Filename m) w).
  destruct (transfers w !! Filename m) as [a|] eqn:Ha; [|by eexists].
  destruct (Hal _ _ Ha) as (t & Ht & dn & Hm).
  mstep (deref_Some _ _ _ Ht).
  destruct (decide (Inflight t = Part m)); [by eexists|].
  mstep (partsGet_completed t (Part m) w).
  destruct (completed w t (Part m)); [by eexists|].
  destruct (os.WriteFile (partFile (Dir t) (TFilename t) (Part m)) (Data m) 436%N (fs w))
    as [fs'|] eqn:Hw.
  - mstep (fsTry_Some _ _ _ Hw).
    assert (Hm' : pmaps (set_fs (λ _, fs') w) !! Parts t = Some dn) by exact Hm.
    rewrite (partsSet_Some _ _ _ dn _ Hm'). by eexists.
  - mstep (fsTry_None _ _ Hw). by eexists.
Qed.

Lemma allocated_w0 : allocated Scenario.w0.
Proof.
  intros f a Hf. exists Scenario.t0.
  change (transfers Scenario.w0) with ({[Scenario.f := 1%positive]} : gmap string ptr) in Hf.
  apply lookup_singleton_Some in Hf as [<- <-].
  split; [compute_done|]. exists ∅. compute_done.
Qed.

(** X3. [MITM] returns when every registered Transfer has its record and
    its map, and it only ever adds: the transfers map, the Transfer
    records (so the in-flight and queued fields) and the trace are as
    before, nothing was sent, every part that was in a completed-parts
    set still is, and every path that was on disk still is. *)
Theorem MITM_only_adds (m : Message) (w : World) :
  allocated w →
  ∃ w', MITM m w = Done tt w'
    ∧ transfers w' = transfers w ∧ objs w' = objs w ∧ trace w' = trace w
    ∧ sends w' = sends w ∧ inbox w' = inbox w ∧ queue w' = queue w
    ∧ (∀ t q, completed w t q = true → completed w' t q = true)
    ∧ (∀ path, is_Some (fs w !! path) → is_Some (fs w' !! path)).
Proof.
  intros Hal. destruct (MITM_returns m w Hal) as [w' E]. exists w'.
  split; [exact E|].
  destruct (MITM_Done_inv m w w' E)
    as [->|(a & t & dn & fs' & Ha & Ht & Hm & Hfl & Hw & Hg & ->)].
  { by split_and!. }
  simpl. split_and!; try done.
  - intros t0 q. unfold completed. simpl.
    destruct (decide (Parts t0 = Parts t)) as [Heq|Hne].
    + rewrite Heq, Hm, lookup_insert_eq. simpl.
      destruct (decide (q = Part m)) as [->|Hq]; [by rewrite lookup_insert_eq|].
      by rewrite lookup_insert_ne.
    + by rewrite lookup_insert_ne.
  - intros path Hp.
    assert (Hfs : ∃ x, fs' = <[partFile (Dir t) (TFilename t) (Part m) := x]> (fs w)).
    { unfold os.WriteFile in Hw.
      destruct (fs w !! partFile (Dir t) (TFilename t) (Part m)) as [[? ?|?]|];
        simplify_eq; eauto.
      destruct (os.isFolder (fs w) _); simplify_eq; eauto. }
    destruct Hfs as [x ->].
    destruct (decide (path = partFile (Dir t) (TFilename t) (Part m))) as [->|Hne].
    + rewrite lookup_insert_eq. eauto.
    + by rewrite lookup_insert_ne.
Qed.

Lemma MITM_only_adds_witness :
  ∃ w', MITM (Scenario.part 1 true Scenario.efgh) Scenario.w0 = Done tt w'
    ∧ transfers w' = transfers Scenario.w0 ∧ objs w' = objs Scenario.w0
    ∧ completed w' Scenario.t0 1 = true.
Proof.
  destruct (MITM_only_adds (Scenario.part 1 true Scenario.efgh) Scenario.w0 allocated_w0)
    as (w' & E & Ht & Ho & _).
  exists w'. split_and!; [exact E|exact Ht|exact Ho|].
  assert (E0 : MITM (Scenario.part 1 true Scenario.efgh) Scenario.w0 = Done tt snooped)
    by compute_done.
  rewrite E0 in E. injection E as <-. reflexivity.
Defined.

(** X4. [MITM] is idempotent: when every registered Transfer has its
    record and its map, it returns, and handling the same message again
    leaves the world it reached as it is. *)
Theorem MITM_idempotent (m : Message) (w : World) :
  allocated w →
  ∃ w', MITM m w = Done tt w' ∧ MITM m w' = Done tt w'.
Proof.
  intros Hal. destruct (MITM_returns m w Hal) as [w' E]. exists w'.
  split; [exact E|].
  destruct (MITM_Done_inv m w w' E)
    as [->|(a & t & dn & fs' & Ha & Ht & Hm & Hfl & Hw & Hg & ->)]; [done|].
  unfold MITM. rewrite Hg.
  mstep (lookupTransfer_eq (Filename m)
           (set_pmaps <[Parts t := <[Part m := true]> dn]> (set_fs (λ _, fs') w))).
  change (transfers (set_pmaps _ (set_fs _ w))) with (transfers w). rewrite Ha.
  assert (Ht' : objs (set_pmaps <[Parts t := <[Part m := true]> dn]>
                        (set_fs (λ _, fs') w)) !! a = Some t) by exact Ht.
  mstep (deref_Some _ _ _ Ht'). rewrite decide_False by done.
  mstep (partsGet_completed t (Part m)
           (set_pmaps <[Parts t := <[Part m := true]> dn]> (set_fs (λ _, fs') w))).
  by rewrite completed_set.
Qed.

Lemma MITM_idempotent_witness :
  MITM (Scenario.part 1 true Scenario.efgh) snooped = Done tt snooped.
Proof.
  destruct (MITM_idempotent (Scenario.part 1 true Scenario.efgh) Scenario.w0 allocated_w0)
    as (w' & E & E2).
  assert (E0 : MITM (Scenario.part 1 true Scenario.efgh) Scenario.w0 = Done tt snooped)
    by compute_done.
  rewrite E0 in E. injection E as <-. exact E2.
Defined.

(** X5. [MITM] leaves the world alone when the part of the message is the
    one in flight for the Transfer, or is already in its completed-parts
    set: the payload is not written a second time. *)
Theorem MITM_skips_inflight_and_completed (m : Message) (w : World) (a : ptr)
    (t : Transfer) :
  transfers w !! Filename m = Some a → objs w !! a = Some t →
  Inflight t = Part m ∨ completed w t (Part m) = true →
  MITM m w = Done tt w.
Proof.
  intros Ha Ht Hor. unfold MITM.
  destruct (negb (bool_decide (Type_ m = TYPE_RESPONSE)) || negb (ACK m)
            || bool_decide (length (Data m) = 0%nat)); [done|].
  mstep (lookupTransfer_eq (Filename m) w). rewrite Ha.
  mstep (deref_Some _ _ _ Ht).
  destruct (decide (Inflight t = Part m)); [done|].
  destruct Hor as [?|Hc]; [done|].
  mstep (partsGet_completed t (Part m) w). by rewrite Hc.
Qed.

Lemma MITM_skips_inflight_and_completed_witness :
  MITM (Scenario.part 0 true Scenario.abcd) fetched = Done tt fetched.
Proof.
  apply (MITM_skips_inflight_and_completed _ fetched 1%positive
           (mkTransfer "/srv/transfer_1" "hello.txt" 1%positive 3 0 false));
    [compute_done|compute_done|left; reflexivity].
Defined.

(** X6. A part that [MITM] has cached is not asked for: after [MITM]
    wrote the part of an ACK response for a live Transfer, [getPart] for
    that part returns nil and leaves the world alone, so it sends no XFER. *)
Theorem snooped_part_is_not_fetched (m msg : Message) (w : World) (a : ptr)
    (t : Transfer) (dn : gmap Z bool) (fs' : FS) :
  Filename msg = Filename m →
  Type_ m = TYPE_RESPONSE → ACK m = true → Data m ≠ [] →
  transfers w !! Filename m = Some a → objs w !! a = Some t →
  pmaps w !! Parts t = Some dn →
  Inflight t ≠ Part m → completed w t (Part m) = false →
  os.WriteFile (partFile (Dir t) (TFilename t) (Part m)) (Data m) 436%N (fs w)
    = Some fs' →
  ∃ w', MITM m w = Done tt w'
    ∧ getPart msg (Part m) w' = Done None w'.
Proof.
  intros Hf Hty Hack Hdata Ha Ht Hmap Hfl Hnot Hwr.
  eexists. split; [by eapply MITM_caches_eq|].
  unfold getPart. rewrite Hf.
  mstep (lookupTransfer_eq (Filename m)
           (set_pmaps <[Parts t := <[Part m := true]> dn]> (set_fs (λ _, fs') w))).
  change (transfers (set_pmaps _ (set_fs _ w))) with (transfers w). rewrite Ha.
  assert (Ht' : objs (set_pmaps <[Parts t := <[Part m := true]> dn]>
                        (set_fs (λ _, fs') w)) !! a = Some t) by exact Ht.
  mstep (deref_Some _ _ _ Ht').
  mstep (partsGet_completed t (Part m)
           (set_pmaps <[Parts t := <[Part m := true]> dn]> (set_fs (λ _, fs') w))).
  by rewrite completed_set.
Qed.

Lemma snooped_part_is_not_fetched_witness :
  MITM (Scenario.part 1 true Scenario.efgh) Scenario.w0 = Done tt snooped
  ∧ getPart Scenario.ack 1 snooped = Done None snooped.
Proof.
  destruct (snooped_part_is_not_fetched (Scenario.part 1 true Scenario.efgh)
              Scenario.ack Scenario.w0 1%positive Scenario.t0 ∅
              (<["/srv/transfer_1/hello.txt.part_1" := File Scenario.efgh 436%N]>
                 Scenario.disk))
    as (w' & E & G);
    [reflexivity|reflexivity|reflexivity|discriminate|compute_done|compute_done
    |compute_done|discriminate|compute_done|compute_done|].
  assert (E0 : MITM (Scenario.part 1 true Scenario.efgh) Scenario.w0 = Done tt snooped)
    by compute_done.
  rewrite E0 in E. injection E as <-. split; [exact E0|exact G].
Defined.

(** ** More on the cleanup *)

(** X7. [destroyTempTransfer] returns when every registered Transfer has
    its record. For a filename without a Transfer it changes nothing.
    After it removed a Transfer, the filename is unregistered, every
    other registration is as before, nothing is left inside the scratch
    directory and the disk outside it is as before; a second call changes
    nothing more. *)
Theorem destroyTempTransfer_cleans_once (f : string) (w : World) :
  allocated w →
  ∃ w', destroyTempTransfer f w = Done tt w'
    ∧ (transfers w !! f = None → w' = w)
    ∧ transfers w' !! f = None
    ∧ (∀ g, g ≠ f → transfers w' !! g = transfers w !! g)
    ∧ (∀ t p, transferOf w f = Some t →
         fs w' !! p = if os.inside (Dir t) p then None else fs w !! p)
    ∧ objs w' = objs w ∧ trace w' = trace w
    ∧ destroyTempTransfer f w' = Done tt w'.
Proof.
  intros Hal.
  assert (Hret : ∃ w', destroyTempTransfer f w = Done tt w').
  { unfold destroyTempTransfer. mstep (lookupTransfer_eq f w).
    destruct (transfers w !! f) as [a|] eqn:Ha; [|by eexists].
    destruct (Hal _ _ Ha) as (t & Ht & _).
    mstep (deref_Some _ _ _ Ht). by eexists. }
  destruct Hret as [w' E]. exists w'. split; [exact E|].
  revert E. unfold destroyTempTransfer at 1.
  rewrite (bind_Done _ _ _ _ _ (lookupTransfer_eq f w)).
  destruct (transfers w !! f) as [a|] eqn:Ha.
  - intros E. apply bind_Done_inv in E as (t & w0 & Ed & E).
    assert (w0 = w) as -> by (by apply deref_Done_inv in Ed).
    assert (Ht : objs w !! a = Some t).
    { unfold deref in Ed. rewrite bind_gets in Ed.
      destruct (objs w !! a); [|done]. by apply ret_Done_inv in Ed as [-> _]. }
    rewrite bind_modify in E. cbv [modify] in E. injection E as <-.
    split_and!; try done.
    + simpl. apply lookup_delete_eq.
    + intros g Hg. simpl. by apply lookup_delete_ne.
    + intros t0 p. unfold transferOf. rewrite Ha. simpl. rewrite Ht.
      intros [= <-]. simpl. destruct (os.inside (Dir t) p) eqn:Hin.
      * by apply RemoveAll_inside.
      * by apply RemoveAll_outside.
    + unfold destroyTempTransfer.
      mstep (lookupTransfer_eq f (set_transfers (delete f)
               (set_fs (os.RemoveAll (Dir t)) w))).
      simpl. by rewrite lookup_delete_eq.
  - intros [_ <-]%ret_Done_inv. split_and!; try done.
    + unfold transferOf. by rewrite Ha.
    + unfold destroyTempTransfer. mstep (lookupTransfer_eq f w). by rewrite Ha.
Qed.

Lemma destroyTempTransfer_cleans_once_witness :
  ∃ w', destroyTempTransfer "hello.txt" snooped = Done tt w'
    ∧ transfers w' !! "hello.txt" = None
    ∧ fs w' !! "/srv/transfer_1/hello.txt.part_1" = None
    ∧ fs w' !! "/srv" = Some (Folder 493%N)
    ∧ destroyTempTransfer "hello.txt" w' = Done tt w'.
Proof.
  assert (Hal : allocated snooped).
  { intros f a Hf. exists Scenario.t0.
    change (transfers snooped) with ({[Scenario.f := 1%positive]} : gmap string ptr) in Hf.
    apply lookup_singleton_Some in Hf as [<- <-].
    split; [compute_done|]. exists {[1 := true]}. compute_done. }
  destruct (destroyTempTransfer_cleans_once "hello.txt" snooped Hal)
    as (w' & E & _ & Hn & _ & Hfs & _ & _ & Hid).
  exists w'. split; [exact E|]. split_and!.
  - exact Hn.
  - rewrite (Hfs Scenario.t0) by compute_done. compute_done.
  - rewrite (Hfs Scenario.t0) by compute_done. compute_done.
  - exact Hid.
Defined.

(** ** More on the part fetcher *)

(** [getPart] on a part that is completed returns nil at once. *)
Lemma getPart_completed (msg : Message) (p : Z) (a : ptr) (t : Transfer) (w : World) :
  Live (Filename msg) a t w → completed w t p = true →
  getPart msg p w = Done None w.
Proof.
  intros (Hreg & (t0 & Hobj & HD & HP) & Hmap) Hc.
  unfold getPart. mstep (lookupTransfer_eq (Filename msg) w). rewrite Hreg.
  mstep (deref_Some _ _ _ Hobj). mstep (partsGet_completed t0 p w).
  assert (completed w t0 p = true) as -> by (unfold completed in *; by rewrite HP).
  reflexivity.
Qed.

(** The trace of a [getPart] that returns: nothing when the part was
    completed already, else the one XFER request. *)
Lemma getPart_trace (msg : Message) (p : Z) (a : ptr) (t : Transfer) (w : World) :
  Live (Filename msg) a t w →
  returns (getPart msg p w) (λ e w',
    (completed w t p = true ∧ e = None ∧ w' = w)
    ∨ (completed w t p = false
       ∧ trace w' = (trace w ++ [xferRequest msg w p])%list)).
Proof.
  intros HL. destruct (completed w t p) eqn:Hc.
  { rewrite (getPart_completed msg p a t w HL Hc). simpl. by left. }
  destruct HL as (Hreg & (t0 & Hobj & HD & HP) & [dn Hmap]).
  unfold getPart. mstep (lookupTransfer_eq (Filename msg) w). rewrite Hreg.
  mstep (deref_Some _ _ _ Hobj). mstep (partsGet_completed t0 p w).
  assert (completed w t0 p = false) as -> by (unfold completed in *; by rewrite HP).
  set (wa := set_objs <[a := withInflight p t0]> w).
  assert (Hset : setField (Filename msg) (withInflight p) w = Done tt wa).
  { unfold setField. mstep (lookupTransfer_eq (Filename msg) w). rewrite Hreg.
    by mstep (deref_Some _ _ _ Hobj). }
  mstep Hset.
  destruct (xfer_returns msg p wa) as (wb & Hx & (Hb & Hn & Ht & Ho & Hp & Hf & Hqu) & Htr).
  mstep Hx. change (xferRequest msg wa p) with (xferRequest msg w p) in Htr.
  change (trace wa) with (trace w) in Htr.
  destruct (xferResult wa) as [e|data]; [simpl; by right|].
  mstep (lookupTransfer_eq (Filename msg) wb). rewrite Ht.
  change (transfers wa) with (transfers w). rewrite Hreg.
  assert (Hobjb : objs wb !! a = Some (withInflight p t0)).
  { rewrite Ho. apply lookup_insert_eq. }
  mstep (deref_Some _ _ _ Hobjb).
  destruct (os.WriteFile (partFile (Dir (withInflight p t0)) (Filename msg) p) data
              436%N (fs wb)) as [fs'|] eqn:Hw.
  - mstep (fsTry_Some _ _ _ Hw).
    assert (Hm : pmaps (set_fs (λ _, fs') wb) !! Parts (withInflight p t0) = Some dn).
    { simpl. rewrite Hp. simpl. by rewrite HP. }
    mstep (partsSet_Some _ p true dn _ Hm). simpl. by right.
  - mstep (fsTry_None _ _ Hw). simpl. by right.
Qed.

Lemma sleepCount_snoc_sleep ms tr : sleepCount (tr ++ [EvSleep ms]) = S (sleepCount tr).
Proof. unfold sleepCount. rewrite filter_app, length_app. simpl. lia. Qed.

Lemma sleepCount_snoc_xfer msg w p tr :
  sleepCount (tr ++ [xferRequest msg w p]) = sleepCount tr.
Proof. unfold sleepCount. rewrite filter_app, length_app. simpl. lia. Qed.

(** A completed part takes one attempt, which asks nobody. *)
Lemma attempts_completed (msg : Message) (p : Z) (a : ptr) (t : Transfer)
    (n : nat) (attempt : Z) (w : World) :
  Live (Filename msg) a t w → completed w t p = true →
  attempts (S n) attempt msg p w = Done true w.
Proof.
  intros HL Hc. cbn [attempts]. by mstep (getPart_completed msg p a t w HL Hc).
Qed.

(** The attempts at a part, with their requests and sleeps counted: [k]
    attempts fail, each after one request; a sleep follows each failed
    attempt but the one numbered 0. *)
Lemma attempts_counts (msg : Message) (p : Z) (a : ptr) (t : Transfer)
    (n : nat) (attempt : Z) (w : World) :
  (0 ≤ attempt)%Z →
  Live (Filename msg) a t w →
  returns (attempts n attempt msg p w) (λ ok w',
    ∃ k x : nat,
      sleepCount (trace w')
        = (sleepCount (trace w) + (if decide (attempt = 0%Z) then k - 1 else k))%nat
      ∧ xferCount (Filename msg) p (trace w')
        = (xferCount (Filename msg) p (trace w) + x)%nat
      ∧ (ok = false → k = n ∧ x = n)
      ∧ (ok = true → (k < n)%nat
           ∧ if completed w t p then k = 0%nat ∧ x = 0%nat else x = S k)).
Proof.
  revert attempt w. induction n as [|n IH]; intros attempt w Hat HL.
  - simpl. exists 0%nat, 0%nat. split_and!; try done; try lia.
    destruct (decide (attempt = 0)); lia.
  - cbn [attempts]. apply returns_bind.
    pose proof (getPart_returns msg p a t w HL) as Hret.
    pose proof (getPart_trace msg p a t w HL) as Htr.
    destruct (getPart msg p w) as [e w1| | |]; try done. simpl in Hret, Htr |- *.
    destruct Hret as (HK1 & _ & Hsame & _).
    destruct e as [err|].
    + destruct Htr as [(_ & ? & _)|(Hc & Htr)]; [done|].
      specialize (Hsame ltac:(done)). rewrite Hc in Hsame.
      set (ws := if decide (0 < attempt)
                 then set_trace (λ tr, (tr ++ [EvSleep timeout])%list) w1 else w1).
      assert (Hsl : (if decide (0 < attempt) then Sleep timeout else mret tt) w1
                    = Done tt ws).
      { subst ws. by destruct (decide (0 < attempt)). }
      mstep Hsl.
      assert (HLs : Live (Filename msg) a t ws).
      { subst ws. destruct (decide (0 < attempt)); [|apply HK1].
        destruct HK1 as ((? & ? & ?) & _). by split_and!. }
      assert (Hcs : completed ws t p = false).
      { subst ws. by destruct (decide (0 < attempt)). }
      eapply returns_mono; [apply (IH (attempt + 1)); [lia|exact HLs]|].
      intros ok w2 (k & x & Hs & Hx & Hf & Ht). rewrite Hcs in Ht.
      assert (Hxs : xferCount (Filename msg) p (trace ws)
                    = S (xferCount (Filename msg) p (trace w))).
      { subst ws. destruct (decide (0 < attempt)); simpl;
          rewrite ?xferCount_sleep, Htr, xferCount_snoc, decide_True by done; lia. }
      assert (Hss : sleepCount (trace ws)
                    = (sleepCount (trace w) + (if decide (0 < attempt)%Z then 1 else 0))%nat).
      { subst ws. destruct (decide (0 < attempt)); simpl;
          rewrite ?sleepCount_snoc_sleep, Htr, sleepCount_snoc_xfer; lia. }
      exists (S k), (S x). rewrite Hc. split_and!.
      * rewrite Hs, Hss. repeat case_decide; lia.
      * lia.
      * intros Hok. destruct (Hf Hok) as [-> ->]. done.
      * intros Hok. destruct (Ht Hok) as [? ->]. split; [lia|done].
    + simpl. exists 0%nat.
      destruct Htr as [(Hc & _ & ->)|(Hc & Htr)]; rewrite Hc.
      * exists 0%nat. split_and!; try done; try lia.
        destruct (decide (attempt = 0)); lia.
      * exists 1%nat. rewrite Htr, xferCount_snoc, sleepCount_snoc_xfer.
        rewrite (decide_True (P := p = p)) by done.
        split_and!; try done; try lia. destruct (decide (attempt = 0)); lia.
Qed.

(** X8. The retries of [getParts] for one part: it never sleeps before
    the second attempt; it sleeps for [timeout] after each later failed
    attempt, also after the last. So a part obtained with at most two
    requests costs no sleep, one obtained with three costs one, and a part
    given up costs three requests and two sleeps. *)
Theorem attempts_sleep_after_retries (msg : Message) (p : Z) (a : ptr)
    (t : Transfer) (w : World) :
  Live (Filename msg) a t w →
  ∃ (ok : bool) (w' : World) (x s : nat),
    attempts MAX_ATTEMPTS 0 msg p w = Done ok w'
    ∧ xferCount (Filename msg) p (trace w')
      = (xferCount (Filename msg) p (trace w) + x)%nat
    ∧ sleepCount (trace w') = (sleepCount (trace w) + s)%nat
    ∧ (x ≤ 3)%nat
    ∧ s = (if ok then x - 2 else x - 1)%nat
    ∧ (ok = false ↔ completed w t p = false ∧ x = 3%nat ∧ completed w' t p = false).
Proof.
  intros HL.
  destruct (returns_inv _ _ (attempts_counts msg p a t MAX_ATTEMPTS 0 w ltac:(lia) HL))
    as (ok & w' & E & k & x & Hs & Hx & Hf & Ht).
  pose proof (returns_inv _ _ (attempts_returns msg p a t MAX_ATTEMPTS 0 w HL))
    as (ok' & w'' & E' & _ & Hok & Hno & _).
  rewrite E in E'. injection E' as <- <-.
  rewrite decide_True in Hs by done. unfold MAX_ATTEMPTS in *.
  destruct ok.
  - destruct (Ht eq_refl) as [Hk Hc]. specialize (Hok eq_refl).
    destruct (completed w t p).
    + destruct Hc as [-> ->]. exists true, w', 0%nat, 0%nat.
      split_and!; try done; try lia.
      all: try (split; [done|]; intros (? & ? & ?); congruence).
    + subst x. exists true, w', (S k), (k - 1)%nat.
      split_and!; try done; try lia.
      all: try (split; [done|]; intros (? & ? & ?); congruence).
  - destruct (Hf eq_refl) as [-> ->]. destruct (Hno eq_refl) as [Hc _].
    exists false, w', 3%nat, 2%nat. split_and!; try done.
    split; [|done]. intros _.
    destruct (completed w t p) eqn:Hcw; [|by rewrite Hc].
    exfalso. rewrite (attempts_completed msg p a t 2 0 w HL Hcw) in E. done.
Qed.

Lemma attempts_sleep_after_retries_witness :
  ∃ w', attempts MAX_ATTEMPTS 0 Scenario.ack 1 Scenario.w0 = Done false w'
    ∧ xferCount "hello.txt" 1 (trace w') = 3%nat
    ∧ sleepCount (trace w') = 2%nat.
Proof.
  destruct (attempts_sleep_after_retries Scenario.ack 1 1%positive Scenario.t0 Scenario.w0)
    as (ok & w' & x & s & E & Hx & Hs & _ & Hsx & Hiff).
  { split_and!; [reflexivity|by exists Scenario.t0|by eexists]. }
  assert (Hok : ok = false).
  { destruct ok; [|done]. exfalso. vm_compute in E. discriminate. }
  subst ok. destruct Hiff as [Hiff _]. destruct (Hiff eq_refl) as (_ & -> & _).
  exists w'. split_and!; [exact E|exact Hx|]. rewrite Hs, Hsx. reflexivity.
Defined.

(** The loop over the parts asks nobody for a part that is completed when
    it starts. *)
Lemma fetchAll_skips (msg : Message) (a : ptr) (t : Transfer)
    (parts : list Z) (w : World) :
  Live (Filename msg) a t w →
  returns (fetchAll msg parts w) (λ _ w',
    Keeps (Filename msg) a t w w'
    ∧ ∀ q, completed w t q = true →
        xferCount (Filename msg) q (trace w') = xferCount (Filename msg) q (trace w)).
Proof.
  revert w. induction parts as [|p rest IH]; intros w HL.
  - simpl. split; [by apply Keeps_refl|done].
  - cbn [fetchAll]. apply returns_bind.
    destruct (completed w t p) eqn:Hcp.
    { unfold MAX_ATTEMPTS. rewrite (attempts_completed msg p a t 2 0 w HL Hcp).
      simpl. by apply IH. }
    eapply returns_mono; [by apply attempts_returns|].
    intros ok w1 (HK1 & Hok & Hfail & Hoth & Hle).
    assert (HL1 : Live (Filename msg) a t w1) by apply HK1.
    assert (Hrest : returns (fetchAll msg rest w1) (λ _ w',
      Keeps (Filename msg) a t w w'
      ∧ ∀ q, completed w t q = true →
          xferCount (Filename msg) q (trace w') = xferCount (Filename msg) q (trace w))).
    { eapply returns_mono; [by apply IH|].
      intros ok2 w2 (HK2 & Hsk). split; [eapply Keeps_trans; eauto|].
      intros q Hq. rewrite Hsk.
      - apply Hoth. intros ->. congruence.
      - destruct HK1 as (_ & _ & _ & _ & _ & _ & Hmono). by apply Hmono. }
    destruct ok; [exact Hrest|].
    destruct HL1 as (Hreg & (t1 & Hobj & HD & HP) & Hmap).
    mstep (lookupTransfer_eq (Filename msg) w1). rewrite Hreg.
    mstep (deref_Some _ _ _ Hobj). mstep (partsGet_completed t1 p w1).
    destruct (completed w1 t1 p); [exact Hrest|].
    simpl. split; [exact HK1|]. intros q Hq. apply Hoth. intros ->. congruence.
Qed.

(** X9. The fetch loop of [getParts] sends no XFER request for a part that
    is marked completed when the loop starts, such as a part snooped by
    [MITM] before; the part stays completed. *)
Theorem getParts_never_requests_completed_part (msg : Message) (a : ptr)
    (t : Transfer) (w : World) :
  Live (Filename msg) a t w →
  (queue w < QUEUE_LEN)%nat →
  ∃ ok w1, fetchPhase msg w = Done ok w1
    ∧ ∀ q, completed w t q = true →
        xferCount (Filename msg) q (trace w1) = xferCount (Filename msg) q (trace w)
        ∧ completed w1 t q = true.
Proof.
  intros HL Hq. apply returns_inv.
  destruct HL as (Hreg & (t0 & Hobj & HD & HP) & Hmap).
  unfold fetchPhase.
  destruct (shuffle_returns (Z.to_nat (Part msg - 1))
              (Z.of_nat <$> seq 0 (Z.to_nat (Part msg))) w) as (parts & Esh & Hperm).
  { rewrite length_fmap, length_seq. lia. }
  mstep Esh.
  set (w1 := set_rand (drop (Z.to_nat (Part msg - 1))) w).
  assert (Eacq : acquire w1 = Done tt (set_queue S w1)).
  { unfold acquire. by rewrite decide_True. }
  mstep Eacq.
  set (w3 := set_objs <[a := withQueued false t0]> (set_queue S w1)).
  assert (Eset : setField (Filename msg) (withQueued false) (set_queue S w1) = Done tt w3).
  { unfold setField. mstep (lookupTransfer_eq (Filename msg) (set_queue S w1)).
    simpl transfers. rewrite Hreg.
    assert (Ho : objs (set_queue S w1) !! a = Some t0) by exact Hobj.
    by mstep (deref_Some _ _ _ Ho). }
  mstep Eset.
  assert (HL3 : Live (Filename msg) a t w3).
  { split_and!; [exact Hreg| |exact Hmap].
    exists (withQueued false t0). split_and!; [apply lookup_insert_eq|done|done]. }
  eapply returns_mono; [apply fetchAll_skips; exact HL3|].
  intros ok w4 (HK & Hsk) q Hc. split.
  - by apply (Hsk q).
  - destruct HK as (_ & _ & _ & _ & _ & _ & Hmono). by apply (Hmono q).
Qed.

(** Node [B] snooped part 1; node [A] then answers the requests for the
    parts 2 and 0. *)
Lemma getParts_never_requests_completed_part_witness :
  ∃ w1, fetchPhase Scenario.ack
          (set_inbox (λ _, [Some (Scenario.part 2 true Scenario.ij);
                            Some (Scenario.part 0 true Scenario.abcd)]) snooped)
        = Done true w1
    ∧ xferCount "hello.txt" 1 (trace w1) = 0%nat
    ∧ xferCount "hello.txt" 2 (trace w1) = 1%nat
    ∧ xferCount "hello.txt" 0 (trace w1) = 1%nat.
Proof.
  destruct (getParts_never_requests_completed_part Scenario.ack 1%positive Scenario.t0
    (set_inbox (λ _, [Some (Scenario.part 2 true Scenario.ij);
                      Some (Scenario.part 0 true Scenario.abcd)]) snooped))
    as (ok & w1 & E & Hsk).
  { split_and!; [reflexivity|by exists Scenario.t0|by eexists]. }
  { unfold QUEUE_LEN. simpl. lia. }
  destruct (Hsk 1) as [H1 _]; [reflexivity|].
  pose proof E as E'. vm_compute in E'. injection E' as <- Hw.
  exists w1. split; [exact E|]. split_and!; [exact H1| |]; rewrite <- Hw; compute_done.
Defined.

(** ** More on the assembly *)

Lemma TempFile_eq (dir pre : string) (w : World) :
  TempFile dir pre w
  = match os.createExcl (filepath.Join dir (pre +:+ hd "" (names w)))
            (File [] 384%N) (fs w) with
    | Some fs1 => Done (Some (filepath.Join dir (pre +:+ hd "" (names w))))
                    (set_fs (λ _, fs1) (set_names (drop 1) w))
    | None => Done None (set_names (drop 1) w)
    end.
Proof.
  unfold TempFile, TempNode. rewrite bind_gets, bind_modify.
  destruct (os.createExcl _ _ (fs w)) as [fs1|] eqn:Hc.
  - assert (Hc' : os.createExcl (filepath.Join dir (pre +:+ hd "" (names w)))
                    (File [] 384%N) (fs (set_names (drop 1) w)) = Some fs1) by exact Hc.
    by mstep (fsTry_Some _ _ _ Hc').
  - assert (Hc' : os.createExcl (filepath.Join dir (pre +:+ hd "" (names w)))
                    (File [] 384%N) (fs (set_names (drop 1) w)) = None) by exact Hc.
    by mstep (fsTry_None _ _ Hc').
Qed.

Lemma append_lookup_ne (p q : string) (d : list byte) (fs : FS) :
  q ≠ p → os.append p d fs !! q = fs !! q.
Proof.
  intros Hne. unfold os.append. destruct (fs !! p) as [[d0 pm|pm]|]; try done.
  by rewrite lookup_insert_ne.
Qed.

Lemma set_fs_same (w : World) : set_fs (λ _, fs w) w = w.
Proof. by destruct w. Qed.

(** The copy loop stops at a part file that is not there, after it
    changed at most the assembly file. *)
Lemma copyParts_missing (msg : Message) (t : Transfer) (tfile : option string)
    (n : nat) (i : Z) (k : nat) (w : World) :
  (k < n)%nat →
  fs w !! partFile (Dir t) (Filename msg) (i + Z.of_nat k) = None →
  tfile ≠ Some (partFile (Dir t) (Filename msg) (i + Z.of_nat k)) →
  ∃ fs', copyParts msg t tfile n i w = Done false (set_fs (λ _, fs') w)
    ∧ ∀ q, tfile ≠ Some q → fs' !! q = fs w !! q.
Proof.
  revert i k w. induction n as [|n IH]; intros i k w Hk Hnone Hne; [lia|].
  cbn [copyParts]. rewrite bind_gets.
  destruct (fs w !! partFile (Dir t) (Filename msg) i) as [nd|] eqn:Hi.
  - destruct k as [|k]; [rewrite Z.add_0_r in Hnone; congruence|].
    replace (i + Z.of_nat (S k)) with (i + 1 + Z.of_nat k) in Hnone, Hne by lia.
    destruct tfile as [tname|]; [destruct nd as [d pm|pm]|];
      rewrite ?bind_modify, ?bind_ret.
    + destruct (IH (i + 1) k (set_fs (os.append tname d) w)) as (fs' & E & Hfr);
        [lia| |done|].
      { simpl. rewrite append_lookup_ne; [done|]. intros <-. done. }
      exists fs'. split; [exact E|]. intros q Hq. rewrite Hfr by done.
      simpl. apply append_lookup_ne. intros ->. done.
    + by apply (IH (i + 1) k w); [lia|..].
    + by apply (IH (i + 1) k w); [lia|..].
  - exists (fs w). by rewrite set_fs_same.
Qed.

(** A copy into no file finds every part file and changes nothing. *)
Lemma copyParts_nil_file (msg : Message) (t : Transfer) (n : nat) (i : Z) (w : World) :
  (∀ k, (k < n)%nat →
     is_Some (fs w !! partFile (Dir t) (Filename msg) (i + Z.of_nat k))) →
  copyParts msg t None n i w = Done true w.
Proof.
  revert i. induction n as [|n IH]; intros i Hall; [done|].
  cbn [copyParts]. rewrite bind_gets.
  destruct (Hall 0%nat ltac:(lia)) as [nd Hnd]. rewrite Z.add_0_r in Hnd.
  rewrite Hnd, bind_ret. apply IH. intros k Hk.
  replace (i + 1 + Z.of_nat k) with (i + Z.of_nat (S k)) by lia. apply Hall. lia.
Qed.

(** X10. The assembly of [getParts] reads the part files from the disk,
    whatever the map of completed parts says. When one of them cannot be
    opened, it returns at once: nothing is moved to the final path, no
    directory is created, nothing is sent, and the only file it may have
    touched is the assembly file in the scratch directory. *)
Theorem assemble_abandons_on_missing_part (msg : Message) (a : ptr) (t : Transfer)
    (k : Z) (w : World) :
  transfers w !! Filename msg = Some a →
  objs w !! a = Some t →
  0 ≤ k < Part msg →
  fs w !! partFile (Dir t) (Filename msg) k = None →
  partFile (Dir t) (Filename msg) k
    ≠ filepath.Join (Dir t) ("cat_" +:+ hd "" (names w)) →
  ∃ w', assemble msg w = Done tt w'
    ∧ (∀ q, q ≠ filepath.Join (Dir t) ("cat_" +:+ hd "" (names w)) →
         fs w' !! q = fs w !! q)
    ∧ trace w' = trace w ∧ transfers w' = transfers w
    ∧ objs w' = objs w ∧ pmaps w' = pmaps w.
Proof.
  intros Hreg Hobj Hk Hnone Hne.
  set (tname := filepath.Join (Dir t) ("cat_" +:+ hd "" (names w))) in *.
  unfold assemble. mstep (lookupTransfer_eq (Filename msg) w). rewrite Hreg.
  mstep (deref_Some _ _ _ Hobj).
  pose proof (TempFile_eq (Dir t) "cat_" w) as Et. fold tname in Et.
  assert (Hkn : (Z.to_nat k < Z.to_nat (Part msg))%nat) by lia.
  destruct (os.createExcl tname (File [] 384%N) (fs w)) as [fs1|] eqn:Hc.
  - destruct (TempFile_created (Dir t) "cat_" w fs1 Hc) as [Et' Hfree].
    fold tname in Et'. mstep Et'.
    destruct (copyParts_missing msg t (Some tname) (Z.to_nat (Part msg)) 0 (Z.to_nat k)
                (set_fs (λ _, <[tname := File [] 384%N]> (fs w)) (set_names (drop 1) w)))
      as (fs' & Ec & Hfr); [done| | |].
    { rewrite Z.add_0_l, Z2Nat.id by lia. simpl. by rewrite lookup_insert_ne. }
    { rewrite Z.add_0_l, Z2Nat.id by lia. congruence. }
    mstep Ec. eexists. split; [reflexivity|]. split_and!; try done.
    intros q Hq. simpl. rewrite Hfr by congruence. simpl. by rewrite lookup_insert_ne.
  - mstep Et.
    destruct (copyParts_missing msg t None (Z.to_nat (Part msg)) 0 (Z.to_nat k)
                (set_names (drop 1) w)) as (fs' & Ec & Hfr); [done| |done|].
    { rewrite Z.add_0_l, Z2Nat.id by lia. exact Hnone. }
    mstep Ec. eexists. split; [reflexivity|]. split_and!; try done.
    intros q Hq. simpl. by rewrite Hfr.
Qed.

Lemma assemble_abandons_on_missing_part_witness :
  ∃ w', assemble Scenario.ack part2_lost = Done tt w'
    ∧ fs w' !! "/srv/hello.txt" = None
    ∧ trace w' = trace part2_lost.
Proof.
  destruct (assemble_abandons_on_missing_part Scenario.ack 1%positive
              (withInflight 0 (withQueued false Scenario.t0)) 2 part2_lost)
    as (w' & E & Hfs & Htr & _); [compute_done|compute_done|simpl; lia|compute_done|compute_done|].
  exists w'. split; [exact E|]. split; [|exact Htr].
  rewrite Hfs by compute_done. compute_done.
Defined.

(** X11. When [ioutil.TempFile] fails and every part file opens, the
    assembly of [getParts] goes through the whole copy loop with a nil
    file and then panics at [tfile.Name()]: the error of [TempFile] is
    logged and not returned on. *)
Theorem assemble_panics_without_assembly_file (msg : Message) (a : ptr)
    (t : Transfer) (w : World) :
  transfers w !! Filename msg = Some a →
  objs w !! a = Some t →
  os.createExcl (filepath.Join (Dir t) ("cat_" +:+ hd "" (names w)))
    (File [] 384%N) (fs w) = None →
  (∀ k, 0 ≤ k < Part msg → is_Some (fs w !! partFile (Dir t) (Filename msg) k)) →
  assemble msg w = Panic.
Proof.
  intros Hreg Hobj Hc Hall.
  unfold assemble. mstep (lookupTransfer_eq (Filename msg) w). rewrite Hreg.
  mstep (deref_Some _ _ _ Hobj).
  pose proof (TempFile_eq (Dir t) "cat_" w) as Et. rewrite Hc in Et. mstep Et.
  assert (Ec : copyParts msg t None (Z.to_nat (Part msg)) 0 (set_names (drop 1) w)
               = Done true (set_names (drop 1) w)).
  { apply copyParts_nil_file. intros k Hk. rewrite Z.add_0_l. apply Hall. lia. }
  by mstep Ec.
Qed.

Lemma assemble_panics_without_assembly_file_witness :
  assemble Scenario.ack name_taken = Panic.
Proof.
  apply (assemble_panics_without_assembly_file Scenario.ack 1%positive
           (withInflight 0 (withQueued false Scenario.t0)) name_taken);
    [compute_done|compute_done|compute_done|].
  intros k Hk.
  assert (Hk3 : k = 0 ∨ k = 1 ∨ k = 2) by (change (Part Scenario.ack) with 3 in Hk; lia).
  destruct Hk3 as [->|[->| ->]]; compute_done.
Defined.

(** ** [getParts] without a registered Transfer *)

Lemma bind_Panic {A B} (m : M A) (k : A → M B) w :
  m w = Panic → (m ≫= k) w = Panic.
Proof. intros E. unfold mbind, M_bind. by rewrite E. Qed.

Lemma defer_Panic {A} (d : M unit) (body : M A) w :
  body w = Panic → defer d body w = Panic.
Proof. intros E. unfold defer. by apply bind_Panic. Qed.

(** X12. [getParts] for a filename that has no registered Transfer. For an
    empty file it still creates the file, and its cleanup does nothing.
    For a file with parts it does not return: once it has an admission
    slot, the assignment to the [Queued] field goes through the nil
    pointer that the map gives, inside the critical section of the
    transfer lock. *)
Theorem getParts_without_transfer (msg : Message) (w : World) :
  transfers w !! Filename msg = None →
  (Part msg = 0 →
     getParts msg w
     = Done tt (match touch (filepath.Join (base w) (Filename msg)) (Perm msg) (fs w) with
                | Some fs1 => set_fs (λ _, fs1) w
                | None => w
                end))
  ∧ (Part msg ≠ 0 → (queue w < QUEUE_LEN)%nat → ∀ w', getParts msg w ≠ Done tt w').
Proof.
  intros Hreg.
  assert (Hnop : ∀ w1, transfers w1 = transfers w →
            destroyTempTransfer (Filename msg) w1 = Done tt w1).
  { intros w1 Ht. unfold destroyTempTransfer.
    mstep (lookupTransfer_eq (Filename msg) w1). by rewrite Ht, Hreg. }
  split.
  - intros Hp. unfold getParts. rewrite decide_True by done.
    destruct (touch _ _ (fs w)) as [fs1|] eqn:Ht.
    + apply defer_Done with (w1 := set_fs (λ _, fs1) w); [|by apply Hnop].
      rewrite bind_gets. by mstep (fsTry_Some _ _ _ Ht).
    + apply defer_Done with (w1 := w); [|by apply Hnop].
      rewrite bind_gets. by mstep (fsTry_None _ _ Ht).
  - intros Hp Hq w'.
    enough (getParts msg w = Panic) as -> by done.
    unfold getParts. rewrite decide_False by done.
    apply defer_Panic.
    destruct (shuffle_returns (Z.to_nat (Part msg - 1))
                (Z.of_nat <$> seq 0 (Z.to_nat (Part msg))) w) as (parts & Esh & _).
    { rewrite length_fmap, length_seq. lia. }
    mstep Esh.
    set (w1 := set_rand (drop (Z.to_nat (Part msg - 1))) w).
    assert (Eacq : acquire w1 = Done tt (set_queue S w1)).
    { unfold acquire. by rewrite decide_True. }
    mstep Eacq. apply defer_Panic. apply bind_Panic. unfold setField.
    mstep (lookupTransfer_eq (Filename msg) (set_queue S w1)).
    simpl transfers. by rewrite Hreg.
Qed.

Lemma getParts_without_transfer_witness :
  (∀ w', getParts Scenario.ack (set_transfers (λ _, ∅) Scenario.w0) ≠ Done tt w')
  ∧ ∃ w', getParts ack0 (set_transfers (λ _, ∅) Scenario.w0) = Done tt w'
      ∧ fs w' !! "/srv/hello.txt" = Some (File [] 420%N).
Proof.
  destruct (getParts_without_transfer Scenario.ack (set_transfers (λ _, ∅) Scenario.w0))
    as [_ Hpanic]; [reflexivity|].
  destruct (getParts_without_transfer ack0 (set_transfers (λ _, ∅) Scenario.w0))
    as [Htouch _]; [reflexivity|].
  split.
  - apply Hpanic; [discriminate|unfold QUEUE_LEN; simpl; lia].
  - eexists. split; [apply Htouch; reflexivity|]. compute_done.
Defined.

(** ** More on [Get] *)

Section GetPaths.
Context (F : FilesOps).

Lemma set_inbox_same (w : World) : set_inbox (λ _, inbox w) w = w.
Proof. by destruct w. Qed.

(** The loop of [info] always returns, after it took at most [n]
    entries from the script of responses, and touches nothing else. *)
Lemma collect_returns (n : nat) (acc : Files F) (w : World) :
  returns (collect F n acc w) (λ r w',
    ∃ k, (k ≤ n)%nat ∧ w' = set_inbox (λ _, drop k (inbox w)) w
         ∧ (n = 0%nat → r = inr acc)).
Proof.
  revert acc w. induction n as [|n IH]; intros acc w.
  - simpl. exists 0%nat. rewrite drop_0, set_inbox_same. done.
  - cbn [collect]. mstep (recv_eq w). destruct (hd None (inbox w)) as [resp|].
    + eapply returns_mono; [apply IH|]. intros r w' (k & Hk & -> & _).
      exists (S k). split; [lia|]. split; [|done]. simpl. by rewrite drop_drop.
    + simpl. exists 1%nat. split; [lia|done].
Qed.

(** [info] on every script of the mesh: the result, the waits it made
    and the world it leaves. *)
Lemma info_returns (file : string) (w : World) :
  ∃ r k, info F file w = Done r (afterInfo file (drop k (inbox w)) w)
    ∧ (k ≤ length (default [] (hd (Some []) (sends w))))%nat
    ∧ (hd (Some []) (sends w) = None → r = inl ErrTransport)
    ∧ (hd (Some []) (sends w) = Some [] → r = inr (NewFiles F (head w) (hash w)))
    ∧ hd 0 (tids w) ∉ TIDs (afterInfo file (drop k (inbox w)) w).
Proof.
  assert (Hrel : ∀ rest, hd 0 (tids w) ∉ TIDs (afterInfo file rest w)).
  { intros rest [_ Hn]%elem_of_difference. apply Hn. by apply elem_of_singleton. }
  destruct (hd (Some []) (sends w)) as [rs|] eqn:Hs.
  - rewrite (info_unfold F file w rs Hs). cbv zeta.
    match goal with |- context [collect F ?n ?acc ?w1] =>
      destruct (returns_inv _ _ (collect_returns n acc w1))
        as (r & w' & E & k & Hk & -> & H0)
    end.
    rewrite E. exists r, k. split_and!; [reflexivity|exact Hk|done| |apply Hrel].
    intros [= ->]. by apply H0.
  - exists (inl ErrTransport), 0%nat. split_and!; [|simpl; lia|done|done|apply Hrel].
    unfold info, defer. mstep (newTID_eq w).
    rewrite bind_assoc, bind_gets, bind_assoc.
    mstep (Broadcast_eq (request (name w) TYPE_INFO file (hd 0 (tids w)) 0)
             (set_TIDs (λ s, {[hd 0 (tids w)]} ∪ s) (set_tids (drop 1) w))).
    cbn [sends set_trace set_TIDs set_tids set_sends]. rewrite Hs.
    rewrite bind_ret, drop_0. unfold afterInfo.
    rewrite <- (set_inbox_same w) at 1. reflexivity.
Qed.

(** X13. [info] returns on every script of the mesh. It broadcasts its
    request once, waits at most once per recipient, and releases the
    transfer id it drew on every path; nothing else of the node changes.
    When the mesh rejects the broadcast the result is the transport error
    and no wait is made; when the broadcast reaches nobody the result is
    the empty collection, again without a wait. *)
Theorem info_always_returns (file : string) (w : World) :
  ∃ r k, info F file w = Done r (afterInfo file (drop k (inbox w)) w)
    ∧ (k ≤ length (default [] (hd (Some []) (sends w))))%nat
    ∧ (hd (Some []) (sends w) = None → r = inl ErrTransport)
    ∧ (hd (Some []) (sends w) = Some [] → r = inr (NewFiles F (head w) (hash w)))
    ∧ hd 0 (tids w) ∉ TIDs (afterInfo file (drop k (inbox w)) w).
Proof. apply info_returns. Qed.

(** [info] when every recipient answers. *)
Lemma info_answers (file : string) (w : World) (rs : list string)
    (resps : list Message) (rest : list (option Message)) :
  hd (Some []) (sends w) = Some rs →
  inbox w = ((Some <$> resps) ++ rest)%list →
  length resps = length rs →
  info F file w
  = Done (inr (aggregate F (NewFiles F (head w) (hash w)) resps)) (afterInfo file rest w).
Proof.
  intros Hs Hin Hlen. rewrite (info_unfold F file w rs Hs).
  rewrite <- Hlen, <- (Nat.add_0_r (length resps)).
  rewrite (collect_responses F resps 0 _ rest) by (simpl; exact Hin).
  reflexivity.
Qed.

(** [Get] up to the answer of [info], when the file is not served from
    the disk and has no Transfer. *)
Lemma Get_after_info (fuel : nat) (file : string) (w w1 : World) (r : error + Files F) :
  localFile w file && bool_decide (head w = "") = false →
  transfers w !! file = None →
  info F file w = Done r w1 →
  (∀ e, r = inl e → Get F (S fuel) file w = Done (Some e) w1)
  ∧ (∀ inf, r = inr inf → messages F inf = [] →
       Get F (S fuel) file w = Done (Some ErrNotFound) w1)
  ∧ (∀ inf v, r = inr inf → messages F inf = [v] → Glob v = [] →
       Get F (S fuel) file w
       = match use F inf (Filename v) (default "" (hashes w1 !! Filename v))
                 (localFile w file) with
         | (Some u, true) =>
             (e ← startTransfer u;
              match e with Some err => mret (Some err) | None => mret None end) w1
         | _ => Done None w1
         end).
Proof.
  intros Hloc Hreg Ei. unfold localFile in *.
  assert (Hnf : (match os.Stat (fs w) (filepath.Join (base w) file) with
                 | Some nd => negb (os.IsDir nd) | None => false end
                 && bool_decide (head w = "")) = false) by exact Hloc.
  split_and!.
  - intros e ->. cbn [Get]. rewrite !bind_gets, Hnf.
    mstep (lookupTransfer_eq file w). rewrite Hreg. by mstep Ei.
  - intros inf -> Hm. cbn [Get]. rewrite !bind_gets, Hnf.
    mstep (lookupTransfer_eq file w). rewrite Hreg. mstep Ei. by rewrite Hm.
  - intros inf v -> Hm Hg. cbn [Get]. rewrite !bind_gets, Hnf.
    mstep (lookupTransfer_eq file w). rewrite Hreg. mstep Ei. rewrite Hm. simpl.
    rewrite Hg. simpl. rewrite decide_False by set_solver.
    unfold getHash. rewrite bind_gets.
    destruct (use F inf (Filename v) _ _) as [[u|] [|]]; try reflexivity.
Qed.


(** [info] when a wait times out before every recipient has answered. *)
Lemma info_times_out (file : string) (w : World) (rs : list string)
    (resps : list Message) (rest : list (option Message)) :
  hd (Some []) (sends w) = Some rs →
  inbox w = ((Some <$> resps) ++ rest)%list →
  hd None rest = None →
  (length resps < length rs)%nat →
  info F file w = Done (inl ErrTimeout) (afterInfo file (drop 1 rest) w).
Proof.
  intros Hs Hin Hhd Hlen. rewrite (info_unfold F file w rs Hs).
  replace (length rs) with (length resps + S (length rs - length resps - 1))%nat by lia.
  rewrite (collect_responses F resps _ _ rest) by (simpl; exact Hin).
  rewrite collect_timeout by (simpl; exact Hhd).
  reflexivity.
Qed.

(** X14. [Get] for a file that is not served from the disk and has no
    Transfer gives up after the round of [info] in three cases: the mesh
    rejects the broadcast; a wait for a response times out, whatever the
    responses before it said; or every recipient answered and no answer
    counts. Each time it returns the error, the request was broadcast
    once and its id released, and no Transfer is registered, no fetcher
    started and nothing written. *)
Theorem Get_gives_up_without_source (fuel : nat) (file : string) (w : World)
    (rs : list string) (resps : list Message) (rest : list (option Message)) :
  localFile w file && bool_decide (head w = "") = false →
  transfers w !! file = None →
  inbox w = ((Some <$> resps) ++ rest)%list →
  (hd (Some []) (sends w) = None →
     Get F (S fuel) file w = Done (Some ErrTransport) (afterInfo file (inbox w) w))
  ∧ (hd (Some []) (sends w) = Some rs → (length resps < length rs)%nat →
     hd None rest = None →
     Get F (S fuel) file w = Done (Some ErrTimeout) (afterInfo file (drop 1 rest) w))
  ∧ (hd (Some []) (sends w) = Some rs → length resps = length rs →
     messages F (aggregate F (NewFiles F (head w) (hash w)) resps) = [] →
     Get F (S fuel) file w = Done (Some ErrNotFound) (afterInfo file rest w))
  ∧ ∀ rest', transfers (afterInfo file rest' w) = transfers w
      ∧ spawned (afterInfo file rest' w) = spawned w
      ∧ fs (afterInfo file rest' w) = fs w
      ∧ (hd 0 (tids w) ∉ TIDs (afterInfo file rest' w))
      ∧ trace (afterInfo file rest' w)
        = (trace w ++ [EvBroadcast (request (name w) TYPE_INFO file (hd 0 (tids w)) 0)])%list.
Proof.
  intros Hloc Hreg Hin. split_and!.
  - intros Hs.
    assert (Ei' : info F file w = Done (inl ErrTransport) (afterInfo file (inbox w) w)).
    { unfold info, defer. mstep (newTID_eq w).
      rewrite bind_assoc, bind_gets, bind_assoc.
      mstep (Broadcast_eq (request (name w) TYPE_INFO file (hd 0 (tids w)) 0)
               (set_TIDs (λ s, {[hd 0 (tids w)]} ∪ s) (set_tids (drop 1) w))).
      cbn [sends set_trace set_TIDs set_tids set_sends]. rewrite Hs.
      rewrite bind_ret. unfold afterInfo.
      rewrite <- (set_inbox_same w) at 1. reflexivity. }
    by apply (Get_after_info fuel file w _ _ Hloc Hreg Ei').
  - intros Hs Hlen Hhd.
    pose proof (info_times_out file w rs resps rest Hs Hin Hhd Hlen) as Ei.
    by apply (Get_after_info fuel file w _ _ Hloc Hreg Ei).
  - intros Hs Hlen Hm.
    pose proof (info_answers file w rs resps rest Hs Hin Hlen) as Ei.
    by eapply (Get_after_info fuel file w _ _ Hloc Hreg Ei).
  - intros rest'. split_and!; try reflexivity.
    intros [_ Hn]%elem_of_difference. apply Hn. by apply elem_of_singleton.
Qed.





End GetPaths.

Lemma Get_gives_up_without_source_witness :
  Get listFiles 1 "hello.txt" asked
  = Done (Some ErrTimeout) (afterInfo "hello.txt" [] asked).
Proof.
  destruct (Get_gives_up_without_source listFiles 0 "hello.txt" asked ["A"; "C"]
              [Scenario.ack] []) as (_ & Hto & _); [compute_done|compute_done|reflexivity|].
  apply Hto; [reflexivity|simpl; lia|reflexivity].
Defined.



Section GetDirectory.
Context (F : FilesOps).



End GetDirectory.


(** * Further functions of the engine *)

(** ** [whoHas] *)

Lemma whoHasLoop_returns (n c : nat) (l : list (option Message)) (w : World) :
  inbox w = l → (c < MAX_ATTEMPTS)%nat →
  returns (whoHasLoop n c w) (λ r w',
    ∃ k, w' = set_inbox (λ _, drop k l) w ∧ whoHasPost n c l r k).
Proof.
  unfold whoHasPost. revert c l w. induction n as [|n IH]; intros c l w Hl Hc.
  - simpl. exists 0%nat. rewrite drop_0, <- Hl, set_inbox_same.
    split; [done|]. split_and!; [done|intros; lia|done|simpl; lia|intros; lia].
  - subst l. cbn [whoHasLoop]. mstep (recv_eq w).
    set (l := inbox w) in *.
    assert (Hstep : ∀ c' r w', (c' < MAX_ATTEMPTS)%nat →
      (∃ k, w' = set_inbox (λ _, drop k (drop 1 l)) (set_inbox (drop 1) w)
            ∧ whoHasPost n c' (drop 1 l) r k) →
      (∀ resp, hd None l = Some resp → ACK resp = false ∧ c' = c) →
      (hd None l = None → c' = S c) →
      ∃ k, w' = set_inbox (λ _, drop k l) w ∧ whoHasPost (S n) c l r k).
    { intros c' r w' Hc' (k & -> & Hk & Hno & Hr) Hresp Hto.
      exists (S k). split; [simpl; by rewrite drop_drop|].
      assert (Hsil : (c + silences (S k) l = c' + silences k (drop 1 l))%nat).
      { destruct l as [|[resp|] l']; simpl.
        - rewrite (Hto eq_refl). lia.
        - destruct (Hresp resp eq_refl) as [_ ->]. by rewrite drop_0.
        - rewrite (Hto eq_refl), drop_0. lia. }
      assert (Hlk : ∀ i, l !! S i = drop 1 l !! i).
      { intros i. by rewrite lookup_drop. }
      assert (H0 : ∀ resp, l !! 0%nat = Some (Some resp) → ACK resp = false).
      { intros resp H. apply Hresp. destruct l as [|x l']; [done|]. simpl in *. congruence. }
      split_and!.
      - lia.
      - intros [|i] resp Hi Hlook; [by apply H0|].
        rewrite Hlk in Hlook. apply (Hno i resp); [lia|done].
      - destruct r as [[| |]|nm].
        + done.
        + destruct Hr as (j & -> & Hj & Hs). exists (S j).
          split_and!; [done|by rewrite Hlk|]. by rewrite Hsil.
        + destruct Hr as (-> & Hs & Hall). split_and!; [done|by rewrite Hsil|].
          intros [|i] resp Hi Hlook; [by apply H0|].
          rewrite Hlk in Hlook. apply (Hall i resp); [lia|done].
        + destruct Hr as (j & resp & -> & Hj & Hack & -> & Hs).
          exists (S j), resp. split_and!; [done|by rewrite Hlk|done|done|].
          by rewrite Hsil. }
    destruct (hd None l) as [resp|] eqn:Hhd.
    + destruct (ACK resp) eqn:Hack.
      * simpl. exists 1%nat. split; [done|].
        assert (Hl0 : l !! 0%nat = Some (Some resp)).
        { destruct l as [|x l']; simpl in *; congruence. }
        split_and!; [lia|intros; lia|].
        exists 0%nat, resp. split_and!; try done.
        destruct l as [|[x|] l']; simpl in *; try done. lia.
      * eapply returns_mono; [apply (IH c (drop 1 l)); [reflexivity|done]|].
        intros r w' Hpost. apply (Hstep c r w' Hc Hpost).
        -- intros resp' [= <-]. done.
        -- done.
    + destruct (decide (S c = MAX_ATTEMPTS)) as [Hmax|Hmax].
      * simpl. exists 1%nat. split; [done|]. split_and!; [lia|intros; lia|].
        exists 0%nat. split_and!; [done| |].
        -- destruct l as [|[x|] l']; simpl in *; done.
        -- destruct l as [|[x|] l']; simpl in *; try done; lia.
      * eapply returns_mono; [apply (IH (S c) (drop 1 l)); [reflexivity|lia]|].
        intros r w' Hpost. apply (Hstep (S c) r w' ltac:(lia) Hpost); [done|done].
Qed.

(** X18. [whoHas] after a broadcast that reached the recipients [rs]. It
    waits at most once per recipient and returns at the first ACK, with
    the name of its sender. A NACK is passed over. Timeouts are counted
    over the whole round, whatever comes between them: the first two are
    passed over, the third ends the round with the error of too many
    timeouts. When the waits run out it reports that the file is not
    found. The request was broadcast once and its transfer id is released
    on every path. *)
Theorem whoHas_first_ack_or_three_timeouts (filename : string) (p : Z) (w : World)
    (rs : list string) :
  hd (Some []) (sends w) = Some rs →
  ∃ (r : WhoHasError + string) (k : nat) (w' : World),
    whoHas filename p w = Done r w'
    ∧ inbox w' = drop k (inbox w)
    ∧ trace w' = (trace w ++ [EvBroadcast
                    (request (name w) TYPE_WHOHAS filename (hd 0 (tids w)) p)])%list
    ∧ (hd 0 (tids w) ∉ TIDs w')
    ∧ (k ≤ length rs)%nat
    ∧ (∀ i resp, (S i < k)%nat → inbox w !! i = Some (Some resp) → ACK resp = false)
    ∧ match r with
      | inr nm =>
          ∃ j resp, k = S j ∧ inbox w !! j = Some (Some resp) ∧ ACK resp = true
            ∧ nm = From resp ∧ (silences k (inbox w) < MAX_ATTEMPTS)%nat
      | inl WhoTooManyTimeouts =>
          ∃ j, k = S j ∧ mjoin (inbox w !! j) = None
            ∧ silences k (inbox w) = MAX_ATTEMPTS
      | inl WhoNotFound =>
          k = length rs ∧ (silences k (inbox w) < MAX_ATTEMPTS)%nat
          ∧ ∀ i resp, (i < k)%nat → inbox w !! i = Some (Some resp) → ACK resp = false
      | inl WhoTransport => False
      end.
Proof.
  intros Hs. unfold whoHas, defer. mstep (newTID_eq w).
  rewrite bind_assoc, bind_gets, bind_assoc.
  mstep (Broadcast_eq (request (name w) TYPE_WHOHAS filename (hd 0 (tids w)) p)
           (set_TIDs (λ s, {[hd 0 (tids w)]} ∪ s) (set_tids (drop 1) w))).
  cbn [sends set_trace set_TIDs set_tids set_sends name]. rewrite Hs.
  match goal with |- context [(whoHasLoop ?n ?c ≫= _) ?w1] =>
    destruct (returns_inv _ _ (whoHasLoop_returns n c (inbox w) w1 eq_refl ltac:(unfold MAX_ATTEMPTS; lia)))
      as (r & w' & E & k & -> & Hk & Hno & Hr)
  end.
  mstep E. exists r, k. eexists. split; [reflexivity|].
  split_and!; try done.
  - intros [_ Hn]%elem_of_difference. apply Hn. by apply elem_of_singleton.
Qed.

Lemma whoHas_first_ack_or_three_timeouts_witness :
  ∃ w', whoHas "hello.txt" 1 polled = Done (inr "A") w'
    ∧ inbox w' = [Some (nack "D")].
Proof.
  destruct (whoHas_first_ack_or_three_timeouts "hello.txt" 1 polled ["A"; "C"; "D"; "E"]
              eq_refl) as (r & k & w' & E & Hin & _).
  pose proof E as E'. vm_compute in E'. injection E' as Hr Hw.
  exists w'. rewrite Hr. split; [exact E|]. rewrite <- Hw. reflexivity.
Defined.

(** ** [Info] *)

Example Contains_ex : Contains "*.txt" "*" = true ∧ Contains "hello.txt" "*" = false
  ∧ Contains "a*" "*" = true ∧ Contains "" "*" = false.
Proof. repeat split; reflexivity. Qed.

Lemma search_responses (resps : list Message) (n : nat) (ret : list string)
    (tl : list (option Message)) (w : World) :
  inbox w = ((Some <$> resps) ++ tl)%list →
  search (length resps + n) ret w
  = search n (ret ++ mjoin (matchesOf <$> resps)) (set_inbox (λ _, tl) w).
Proof.
  revert ret w. induction resps as [|r resps IH]; intros ret w Hin.
  - simpl in *. rewrite app_nil_r, <- Hin, set_inbox_same. done.
  - simpl. mstep (recv_eq w). rewrite Hin. simpl.
    assert (Hrest : ∀ ret', search (length resps + n) ret' (set_inbox (drop 1) w)
              = search n (ret' ++ mjoin (matchesOf <$> resps)) (set_inbox (λ _, tl) w)).
    { intros ret'. rewrite (IH ret' (set_inbox (drop 1) w)); [reflexivity|].
      simpl. by rewrite Hin. }
    unfold matchesOf at 1.
    destruct (ACK r); [|by rewrite Hrest].
    destruct (bool_decide (length (Glob r) = 0%nat)).
    + destruct (negb (Contains (Filename r) "*")); rewrite Hrest; [|done].
      by rewrite <- app_assoc.
    + rewrite Hrest. by rewrite <- app_assoc.
Qed.

Lemma search_timeout (n : nat) (ret : list string) (w : World) :
  hd None (inbox w) = None →
  search (S n) ret w = Done [] (set_inbox (drop 1) w).
Proof. intros Hhd. simpl. mstep (recv_eq w). by rewrite Hhd. Qed.

(** [Info] up to its loop: the request is registered and broadcast, and
    the deferred release runs on what the loop returns. *)
Lemma Info_unfold (local : list string) (file : string) (w : World) (rs : list string) :
  hd (Some []) (sends w) = Some rs →
  let tid := hd 0 (tids w) in
  let w1 := set_sends (drop 1)
              (set_trace (λ t, (t ++ [EvBroadcast (request (name w) TYPE_INFO file tid 0)])%list)
                 (set_TIDs (λ s, {[tid]} ∪ s) (set_tids (drop 1) w))) in
  Info local file w
  = match search (length rs) local w1 with
    | Done a w' => Done a (set_TIDs (λ s, s ∖ {[tid]}) w')
    | Panic => Panic
    | Blocked => Blocked
    | OutOfFuel => OutOfFuel
    end.
Proof.
  intros Hs tid w1. unfold Info, defer. mstep (newTID_eq w).
  unfold mbind at 1. unfold M_bind at 1.
  rewrite bind_gets.
  mstep (Broadcast_eq (request (name w) TYPE_INFO file tid 0)
           (set_TIDs (λ s, {[tid]} ∪ s) (set_tids (drop 1) w))).
  cbn [sends set_trace set_TIDs set_tids set_sends]. rewrite Hs.
  reflexivity.
Qed.

(** X19. [Info] when every recipient of its request answers: the result
    is the local matches, followed by what the responses add, in the
    order of their arrival. A match comes from an ACK: the entries of its
    glob, or, when it has none, its filename unless that holds a [*]. A
    NACK adds nothing, and nothing is removed, duplicates neither. *)
Theorem Info_collects_matches (local : list string) (file : string) (w : World)
    (rs : list string) (resps : list Message) (rest : list (option Message)) :
  hd (Some []) (sends w) = Some rs →
  inbox w = ((Some <$> resps) ++ rest)%list →
  length resps = length rs →
  ∃ found, Info local file w = Done (local ++ found)%list (afterInfo file rest w)
    ∧ found = mjoin (matchesOf <$> resps)
    ∧ ∀ x, x ∈ found ↔
        ∃ resp, resp ∈ resps ∧ ACK resp = true
          ∧ (x ∈ Glob resp
             ∨ (Glob resp = [] ∧ x = Filename resp ∧ Contains x "*" = false)).
Proof.
  intros Hs Hin Hlen. exists (mjoin (matchesOf <$> resps)). split_and!.
  - rewrite (Info_unfold local file w rs Hs).
    rewrite <- Hlen, <- (Nat.add_0_r (length resps)).
    rewrite (search_responses resps 0 _ rest) by (simpl; exact Hin).
    reflexivity.
  - reflexivity.
  - intros x. rewrite list_elem_of_join. split.
    + intros (l & Hx & Hl). apply list_elem_of_fmap in Hl as (resp & -> & Hresp).
      exists resp. split; [done|]. unfold matchesOf in Hx.
      destruct (ACK resp); [|by apply elem_of_nil in Hx]. split; [done|].
      destruct (Glob resp) as [|g gs] eqn:Hg; simpl in Hx.
      * destruct (Contains (Filename resp) "*") eqn:Hc; simpl in Hx;
          [by apply elem_of_nil in Hx|].
        apply elem_of_cons in Hx as [->|Hx]; [|by apply elem_of_nil in Hx].
        right. done.
      * by left.
    + intros (resp & Hresp & Hack & Hx). exists (matchesOf resp).
      split; [|apply list_elem_of_fmap; by exists resp].
      unfold matchesOf. rewrite Hack.
      destruct Hx as [Hx|(Hg & -> & Hc)].
      * destruct (Glob resp) as [|g gs]; [by apply elem_of_nil in Hx|]. done.
      * rewrite Hg, Hc. simpl. apply elem_of_cons. by left.
Qed.

Lemma Info_collects_matches_witness :
  Info ["notes.txt"] "*.txt" searched
  = Done ["notes.txt"; "hello.txt"; "docs/a.txt"; "docs/b.txt"]
      (afterInfo "*.txt" [] searched).
Proof.
  destruct (Info_collects_matches ["notes.txt"] "*.txt" searched ["A"; "C"; "D"]
              [Scenario.ack; ackGlob; ackPattern] [] eq_refl eq_refl eq_refl)
    as (found & E & -> & _). rewrite E. reflexivity.
Defined.

(** X20. [Info] returns nil when the mesh rejects its broadcast, and when
    a wait for a response times out: the local matches and the matches
    of the responses before the timeout are not returned. *)
Theorem Info_failure_drops_matches (local : list string) (file : string) (w : World)
    (rs : list string) (resps : list Message) (rest : list (option Message)) :
  inbox w = ((Some <$> resps) ++ rest)%list →
  (hd (Some []) (sends w) = None →
     Info local file w = Done [] (afterInfo file (inbox w) w))
  ∧ (hd (Some []) (sends w) = Some rs → (length resps < length rs)%nat →
     hd None rest = None →
     Info local file w = Done [] (afterInfo file (drop 1 rest) w)).
Proof.
  intros Hin. split.
  - intros Hs. unfold Info, defer. mstep (newTID_eq w).
    rewrite bind_assoc, bind_gets, bind_assoc.
    mstep (Broadcast_eq (request (name w) TYPE_INFO file (hd 0 (tids w)) 0)
             (set_TIDs (λ s, {[hd 0 (tids w)]} ∪ s) (set_tids (drop 1) w))).
    cbn [sends set_trace set_TIDs set_tids set_sends]. rewrite Hs.
    rewrite bind_ret. unfold afterInfo.
    rewrite <- (set_inbox_same w) at 1. reflexivity.
  - intros Hs Hlen Hhd. rewrite (Info_unfold local file w rs Hs).
    replace (length rs) with (length resps + S (length rs - length resps - 1))%nat by lia.
    rewrite (search_responses resps _ _ rest) by (simpl; exact Hin).
    rewrite search_timeout by (simpl; exact Hhd).
    reflexivity.
Qed.

Lemma Info_failure_drops_matches_witness :
  Info ["hello.txt"] "hello.txt" asked = Done [] (afterInfo "hello.txt" [] asked).
Proof.
  destruct (Info_failure_drops_matches ["hello.txt"] "hello.txt" asked ["A"; "C"]
              [Scenario.ack] [] eq_refl) as [_ H].
  apply H; [reflexivity|simpl; lia|reflexivity].
Defined.

(** ** [Stream] *)

Section StreamTheorems.
Context (F : FilesOps).

(** X21. [Stream] always returns, and stores nothing. When the name
    resolves to a local regular file and head-node mode is off it hands
    the file on the disk to [stream], in the same world: nothing is sent.
    Otherwise it runs one round of [info] and changes nothing else: it
    registers no Transfer, whether or not one is in flight for the file,
    makes no scratch directory, takes no admission slot and writes
    nothing; a rejected broadcast gives the transport error; and it
    streams from the mesh only from a message that [use] chose for the
    file. *)
Theorem Stream_stores_nothing (file : string) (w : World) :
  if localFile w file && bool_decide (head w = "")
  then Stream F file w = Done (FromDisk (filepath.Join (base w) file)) w
  else ∃ r k,
    Stream F file w = Done r (afterInfo file (drop k (inbox w)) w)
    ∧ (k ≤ length (default [] (hd (Some []) (sends w))))%nat
    ∧ (hd (Some []) (sends w) = None → r = Failed (StreamInfo ErrTransport))
    ∧ (∀ u, r = FromMesh u →
         ∃ inf, use F inf file (default "" (hashes w !! file)) (localFile w file)
                = (Some u, true)).
Proof.
  unfold localFile, Stream. rewrite !bind_gets.
  destruct (_ && _) eqn:Hloc; [reflexivity|].
  destruct (info_returns F file w) as (r & k & Ei & Hk & Htr & _).
  mstep Ei. destruct r as [e|inf].
  - exists (Failed (StreamInfo e)), k. split_and!; try done.
    intros Hs. specialize (Htr Hs). by injection Htr as ->.
  - assert (Hno : hd (Some []) (sends w) = None → False).
    { intros Hs. by specialize (Htr Hs). }
    destruct (bool_decide (length (messages F inf) = 0%nat)).
    { exists (Failed StreamNotFound), k. split_and!; try done. }
    unfold getHash. rewrite bind_gets.
    change (hashes (afterInfo file (drop k (inbox w)) w)) with (hashes w).
    destruct (use F inf file _ _) as [[u|] [|]] eqn:Hu.
    + exists (FromMesh u), k. split_and!; try done.
      intros u' [= <-]. by exists inf.
    + exists (Failed StreamGlob), k. split_and!; try done.
    + exists (FromDisk (filepath.Join (base w) file)), k. split_and!; try done.
    + exists (Failed StreamGlob), k. split_and!; try done.
Qed.

End StreamTheorems.





(** ** [New] *)

(** [mkdirs] fails exactly when one of the paths is a regular file. *)
Lemma mkdirs_None (ps : list string) (perm : N) (fs : FS) :
  os.mkdirs ps perm fs = None
  ↔ ∃ p d pm, p ∈ ps ∧ p ≠ "." ∧ fs !! p = Some (File d pm).
Proof.
  revert fs. induction ps as [|p0 ps IH]; intros fs; simpl.
  - split; [done|]. intros (p & d & pm & Hp & _). by apply elem_of_nil in Hp.
  - destruct (bool_decide (p0 = ".")) eqn:Hdot.
    { apply bool_decide_eq_true in Hdot as ->. rewrite IH. split.
      - intros (p & d & pm & Hp & Hne & Hf). exists p, d, pm.
        split; [apply elem_of_cons; by right|done].
      - intros (p & d & pm & Hp & Hne & Hf). exists p, d, pm.
        apply elem_of_cons in Hp as [->|Hp]; done. }
    apply bool_decide_eq_false in Hdot.
    destruct (fs !! p0) as [[d0 pm0|pm0]|] eqn:E0.
    + split; [|done]. intros _. exists p0, d0, pm0.
      split; [apply elem_of_cons; by left|done].
    + rewrite IH. split.
      * intros (p & d & pm & Hp & Hne & Hf). exists p, d, pm.
        split; [apply elem_of_cons; by right|done].
      * intros (p & d & pm & Hp & Hne & Hf). exists p, d, pm.
        apply elem_of_cons in Hp as [->|Hp]; [congruence|done].
    + rewrite IH. split.
      * intros (p & d & pm & Hp & Hne & Hf). exists p, d, pm.
        split; [apply elem_of_cons; by right|]. split; [done|].
        destruct (decide (p = p0)) as [->|Hpp].
        -- by rewrite lookup_insert_eq in Hf.
        -- by rewrite lookup_insert_ne in Hf.
      * intros (p & d & pm & Hp & Hne & Hf). exists p, d, pm.
        apply elem_of_cons in Hp as [->|Hp]; [congruence|].
        split; [done|]. split; [done|].
        rewrite lookup_insert_ne; [done|]. congruence.
Qed.

(** [mkdirs] adds directories, at the paths it is given, and nothing
    else. *)
Lemma mkdirs_adds (ps : list string) (perm : N) (fs fs' : FS) (p : string) :
  os.mkdirs ps perm fs = Some fs' →
  fs' !! p = fs !! p
  ∨ (fs !! p = None ∧ fs' !! p = Some (Folder perm) ∧ p ∈ ps).
Proof.
  revert fs. induction ps as [|p0 ps IH]; intros fs Hm; simpl in Hm.
  - left. by simplify_eq.
  - assert (Hlift : ∀ fs0, os.mkdirs ps perm fs0 = Some fs' → fs0 = fs →
              fs' !! p = fs !! p
              ∨ (fs !! p = None ∧ fs' !! p = Some (Folder perm) ∧ p ∈ p0 :: ps)).
    { intros fs0 H0 ->. destruct (IH _ H0) as [?|(? & ? & ?)]; [by left|].
      right. split_and!; [done|done|apply elem_of_cons; by right]. }
    destruct (bool_decide (p0 = ".")); [by eapply Hlift|].
    destruct (fs !! p0) as [[d0 pm0|pm0]|] eqn:E0; [done|by eapply Hlift|].
    destruct (decide (p = p0)) as [->|Hne].
    + right. split; [done|]. split; [|apply elem_of_cons; by left].
      eapply mkdirs_preserves; [exact Hm|]. apply lookup_insert_eq.
    + destruct (IH _ Hm) as [Hs|(Hn & Hf & Hin)].
      * left. by rewrite Hs, lookup_insert_ne.
      * right. rewrite lookup_insert_ne in Hn by done.
        split_and!; [done|done|apply elem_of_cons; by right].
Qed.

(** X23. [New] fails exactly when the cleaned base path or one of its
    ancestors is a regular file. When it returns a node, the base of the
    node is the cleaned path, no Transfer is registered and the admission
    queue is empty; on the disk it has added directories only, with mode
    0755, on the way to the base, and every file and directory that was
    there is as before. *)
Theorem New_makes_base_directory (b nm h : string) (hs : bool) (env : World) :
  (New b nm h hs env = None
   ↔ ∃ p d pm, p ∈ os.ancestors (filepath.Clean b) ∧ p ≠ "."
       ∧ fs env !! p = Some (File d pm))
  ∧ ∀ w, New b nm h hs env = Some w →
      base w = filepath.Clean b ∧ transfers w = ∅ ∧ queue w = 0%nat
      ∧ ∀ p, fs w !! p = fs env !! p
             ∨ (fs env !! p = None ∧ fs w !! p = Some (Folder 493%N)
                ∧ p ∈ os.ancestors (filepath.Clean b)).
Proof.
  unfold New, os.MkdirAll. split.
  - rewrite <- (mkdirs_None _ 493%N).
    destruct (os.mkdirs _ _ (fs env)); cbv [mbind option_bind]; split; done.
  - intros w Hw.
    destruct (os.mkdirs _ _ (fs env)) as [fs1|] eqn:Hm; cbv [mbind option_bind] in Hw; [|done].
    injection Hw as <-. simpl. split_and!; try done.
    intros p. by apply (mkdirs_adds _ _ _ _ p Hm).
Qed.

Lemma New_makes_base_directory_witness :
  ∃ w, New "/srv//files/" "B" "" false Scenario.w0 = Some w
    ∧ base w = "/srv/files"
    ∧ fs w !! "/srv/files" = Some (Folder 493%N)
    ∧ fs w !! "/srv/transfer_1" = Some (Folder 448%N).
Proof.
  destruct (New_makes_base_directory "/srv//files/" "B" "" false Scenario.w0)
    as [_ Hnew].
  destruct (New "/srv//files/" "B" "" false Scenario.w0) as [w|] eqn:E; [|by vm_compute in E].
  destruct (Hnew w eq_refl) as (Hb & _ & _ & Hfs).
  exists w. split; [done|]. split; [exact Hb|].
  split.
  - destruct (Hfs "/srv/files") as [Hsame|(_ & Hf & _)]; [|exact Hf].
    vm_compute in E. injection E as <-. done.
  - destruct (Hfs "/srv/transfer_1") as [Hsame|(Hn & _)]; [|done].
    rewrite Hsame. reflexivity.
Defined.
